(** * The gaze facing decision pipeline of [GazeDetection.detect]

    A shallow embedding of [src/main.py]: the per-face facing
    classification, the selection of the biggest face, the crop of the
    returned frame and the steering value written on the serial port.

    Conventions of the embedding.
    - A Python [int] is a [Z].  A Python [float] is an exact rational [Q]:
      the angles of the pose solver, the pupil ratios, the crop paddings
      and the serial step are rationals, and [/], [round] and [int] are
      the exact operations on them.  Binary rounding is not modelled: a
      float operation may differ from the exact one in its last bit, which
      matters only for a value that sits exactly on a threshold or on a
      rounding tie.  NaN and infinities are left out.
    - An exception is a value of [exn]; code that may raise returns a
      [result], and [x ← e; k] threads the first exception through.
    - The collaborators that live outside [main.py] (landmark provider,
      pose solver, pupil locator, the drawing and colour conversion of
      [cv2], the serial port) are functions held by the [GazeDetection]
      object or section variables; they are assumed to return normally.
      What is written on the serial port is recorded as the list of the
      values handed to [write], before [struct.pack] narrows them. *)

From Stdlib Require Import ZArith QArith Qabs Qround Qminmax List Lia Lqa.
From stdpp Require Import base option strings gmap.
Import ListNotations.

Local Open Scope Z_scope.

(** ** Exceptions and results *)

Inductive exn : Set :=
  | ZeroDivisionError
  | IndexError
  | UnboundLocalError.

Inductive result (A : Type) : Type :=
  | Ok (a : A)
  | Raise (e : exn).

Arguments Ok {A} a.
Arguments Raise {A} e.

#[global] Instance result_ret : MRet result := @Ok.

#[global] Instance result_bind : MBind result :=
  fun A B (k : A -> result B) (m : result A) =>
    match m with
    | Ok a => k a
    | Raise e => Raise e
    end.

#[global] Instance result_fmap : FMap result :=
  fun A B (f : A -> B) (m : result A) =>
    match m with
    | Ok a => Ok (f a)
    | Raise e => Raise e
    end.

Definition is_Ok {A} (r : result A) : Prop :=
  match r with Ok _ => True | Raise _ => False end.

(** ** Python numbers *)

Module PyNum.

(** [x < y] on floats, as a boolean. *)
Definition Qltb (x y : Q) : bool := negb (Qle_bool y x).

(** [max(a, b)] keeps its first argument unless the second is greater. *)
Definition py_max (a b : Q) : Q := if Qltb a b then b else a.

(** [int(x)] truncates toward zero. *)
Definition py_int (x : Q) : Z := Z.quot (Qnum x) (Zpos (Qden x)).

(** Rounding to the nearest integer, ties to the even one. *)
Definition round_half_even (x : Q) : Z :=
  let f := Qfloor x in
  let d := (x - inject_Z f)%Q in
  if Qltb d (1 # 2) then f
  else if Qltb (1 # 2) d then f + 1
  else if Z.even f then f else f + 1.

(** [round(x, 2)]. *)
Definition py_round2 (x : Q) : Q :=
  (inject_Z (round_half_even (x * inject_Z 100)) / inject_Z 100)%Q.

(** [a / b] on two ints: true division, which raises on a zero divisor. *)
Definition py_truediv (a b : Z) : result Q :=
  if b =? 0 then Raise ZeroDivisionError
  else Ok (inject_Z a / inject_Z b)%Q.

End PyNum.
Import PyNum.

(** ** Images

    A [numpy] 2-D array: its shape and its cells.  Only basic slicing
    [m[r0:r1, c0:c1]] is used by [detect]. *)

Record ndarray (A : Type) : Type := mk_ndarray {
  nrows : Z;
  ncols : Z;
  cell : Z -> Z -> A
}.

Arguments mk_ndarray {A} _ _ _.
Arguments nrows {A} _.
Arguments ncols {A} _.
Arguments cell {A} _ _ _.

(** [frame.shape], rows first. *)
Definition shape {A} (m : ndarray A) : Z * Z := (nrows m, ncols m).

(** A slice bound [i] on an axis of length [n]: a negative bound counts
    from the end, and every bound is clipped to [0 .. n]. *)
Definition slice_index (n i : Z) : Z :=
  if i <? 0 then Z.max (i + n) 0 else Z.min i n.

(** The half-open range [[start, stop)] that [a:b] selects on an axis of
    length [n]; it is empty when [stop <= start]. *)
Definition slice_range (n a b : Z) : Z * Z :=
  (slice_index n a, slice_index n b).

Definition slice2 {A} (m : ndarray A) (r0 r1 c0 c1 : Z) : ndarray A :=
  let '(ra, rb) := slice_range (nrows m) r0 r1 in
  let '(ca, cb) := slice_range (ncols m) c0 c1 in
  {| nrows := Z.max (rb - ra) 0;
     ncols := Z.max (cb - ca) 0;
     cell := fun i j => cell m (ra + i) (ca + j) |}.

(** ** Face records

    Modelled from the spec: the landmark provider
    ([components/face_landmark.py], with the key table [FaceLandmarkK]) is
    not among the sources.  Following the spec, a face record exposes each
    named landmark as an integer [(x, y)] pair and the bounding box [BOX]
    as [(x, y, w, h)]; [face.get(k.NAME)] is the projection [NAME]. *)

Record Face : Set := {
  NOSE : Z * Z;
  CHIN : Z * Z;
  EYE_L_OUT : Z * Z;
  EYE_L_IN : Z * Z;
  EYE_L_TOP : Z * Z;
  EYE_L_BOTTOM : Z * Z;
  EYE_R_OUT : Z * Z;
  EYE_R_IN : Z * Z;
  EYE_R_TOP : Z * Z;
  EYE_R_BOTTOM : Z * Z;
  MOUTH_L : Z * Z;
  MOUTH_R : Z * Z;
  BOX : Z * Z * Z * Z
}.

(** [p[0]] and [p[1]] of a landmark. *)
Abbreviation X p := (fst p) (only parsing).
Abbreviation Y p := (snd p) (only parsing).

(** The bounding-box area [face.get(k.BOX)[2] * face.get(k.BOX)[3]]. *)
Definition box_area (f : Face) : Z :=
  let '(_, _, w, h) := BOX f in w * h.

(** ** Module constants *)

Definition EYE_RATIO_MULTIPLIER : Z := 100.
Definition FACE_FACING_SENSIBILITY : Z := 20.
Definition GAZE_FACING_SENSIBILITY : Z := 5.

(** The values stored in the [saved_info] dictionary: an angle, or a
    two-element list [[x, y]]. *)
Inductive info_value : Set :=
  | Angle (a : Q)
  | Point (x y : Z).

Section Detect.

(** Pixels of the colour frame and of its grey conversion. *)
Variables bgr gray : Type.

(** [cv2.cvtColor(frame, cv2.COLOR_BGR2GRAY)]. *)
Variable cvtColor : ndarray bgr -> ndarray gray.

(** The attributes of a [GazeDetection] object that [detect] reads.
    [serial_port] and [serial_writing_step] are set by [__init__] only
    when the port could be opened: [None] is the missing attribute. *)
Record GazeDetection : Type := {
  landmark_tracking : ndarray gray -> list Face;
  pupil_detection : option (ndarray gray -> Z * Z);
  pnp_solver : Z * Z -> list (Z * Z) -> list (Q * Q) * Q * Q * Q;
  print_on_serial : bool;
  serial_port : option string;
  serial_writing_step : option Q;
  annotate_image : bool;
  eye_frame_padding : Z * Z;
  crop_frame : bool;
  crop_frame_paddings : Q * Q * Q * Q;
  face_facing_sensibility : Z
}.

(** The local variables of [detect] that outlive one iteration of the
    loop over the faces.  Those assigned only inside the loop are
    unbound ([None]) until a face has been processed. *)
Record locals : Type := {
  frame : ndarray bgr;
  biggest_face_index : nat;
  biggest_face_area : Z;
  saved_info : gmap string info_value;
  nose_end_point2D : option (list (Q * Q));
  pitch : option Q;
  yaw : option Q;
  roll : option Q;
  face_facing : option bool;
  gaze_facing : option bool;
  pupil_l_center_h_ratio : option Q;
  pupil_r_center_h_ratio : option Q
}.

(** Rebinding the local [frame]. *)
Definition with_frame (st : locals) (f : ndarray bgr) : locals :=
  {| frame := f;
     biggest_face_index := biggest_face_index st;
     biggest_face_area := biggest_face_area st;
     saved_info := saved_info st;
     nose_end_point2D := nose_end_point2D st;
     pitch := pitch st;
     yaw := yaw st;
     roll := roll st;
     face_facing := face_facing st;
     gaze_facing := gaze_facing st;
     pupil_l_center_h_ratio := pupil_l_center_h_ratio st;
     pupil_r_center_h_ratio := pupil_r_center_h_ratio st |}.

(** The drawing done under [annotate_image]: every [cv2] call there
    paints the frame in place, inside a [try] that swallows its errors,
    so the block yields the cells of the painted frame and never
    raises. *)
Variable draw : GazeDetection -> locals -> Face -> Z -> Z -> bgr.

Definition image_points (face : Face) : list (Z * Z) :=
  [NOSE face; CHIN face; EYE_L_OUT face; EYE_R_OUT face;
   MOUTH_L face; MOUTH_R face].

(** Lines 163-166. *)
Definition face_facing_of (self : GazeDetection) (pitch yaw : Q) : bool :=
  Qltb (Qabs pitch) (inject_Z (face_facing_sensibility self))
  && Qltb (Qabs yaw) (inject_Z (face_facing_sensibility self)).

(** The two eye crops of lines 173-183. *)
Definition eyes (self : GazeDetection) (framebg : ndarray gray) (face : Face)
  : ndarray gray * ndarray gray :=
  let '(pad_h, pad_v) := eye_frame_padding self in
  (slice2 framebg
     (Y (EYE_L_TOP face) - pad_v) (Y (EYE_L_BOTTOM face) + pad_v)
     (X (EYE_L_IN face) - pad_h) (X (EYE_L_OUT face) + pad_h),
   slice2 framebg
     (Y (EYE_R_TOP face) - pad_v) (Y (EYE_R_BOTTOM face) + pad_v)
     (X (EYE_R_OUT face) - pad_h) (X (EYE_R_IN face) + pad_h)).

(** Lines 185-193: the pupils in frame coordinates, as
    [((pupil_l_x, pupil_l_y), (pupil_r_x, pupil_r_y))]. *)
Definition pupils (self : GazeDetection) (detect_pupil : ndarray gray -> Z * Z)
    (framebg : ndarray gray) (face : Face) : (Z * Z) * (Z * Z) :=
  let '(pad_h, pad_v) := eye_frame_padding self in
  let '(eye_l, eye_r) := eyes self framebg face in
  let '(pupil_l_x, pupil_l_y) := detect_pupil eye_l in
  let '(pupil_r_x, pupil_r_y) := detect_pupil eye_r in
  ((X (EYE_L_IN face) - pad_h + pupil_l_x,
    Y (EYE_L_TOP face) - pad_v + pupil_l_y),
   (X (EYE_R_OUT face) - pad_h + pupil_r_x,
    Y (EYE_R_TOP face) - pad_v + pupil_r_y)).

(** Lines 199-202: [round((pupil_x - a) / (b - a) - 0.5, 2)]. *)
Definition center_h_ratio (pupil_x a b : Z) : result Q :=
  q ← py_truediv (pupil_x - a) (b - a);
  mret (py_round2 (q - (1 # 2))%Q).

(** Lines 205-213, from the value [gaze_facing] has on entry. *)
Definition facing_computation (self : GazeDetection)
    (face_facing : bool) (yaw : Q) (r_l r_r : Q) (gaze_facing : bool) : bool :=
  let M := inject_Z EYE_RATIO_MULTIPLIER in
  if face_facing then
    if Qltb (py_max (Qabs r_l) (Qabs r_r))
            (inject_Z (face_facing_sensibility self) / M)%Q
    then true else false
  else if Qltb yaw 0
          && Qltb (Qabs (2 * Qabs r_l * M - Qabs yaw))%Q
                  (inject_Z GAZE_FACING_SENSIBILITY)
  then true
  else if Qltb 0 yaw
          && Qltb (Qabs (2 * Qabs r_r * M - Qabs yaw))%Q
                  (inject_Z GAZE_FACING_SENSIBILITY)
  then true
  else gaze_facing.

(** One iteration of the loop of lines 144-287, for the face at
    [face_index]. *)
Definition detect_face (self : GazeDetection) (framebg : ndarray gray)
    (st : locals) (face_index : nat) (face : Face) : result locals :=
  let '(nose_end, pitch_, yaw_, roll_) :=
    pnp_solver self (shape (frame st)) (image_points face) in
  let info := <["roll" := Angle roll_]>
                (<["yaw" := Angle yaw_]>
                   (<["pitch" := Angle pitch_]> (saved_info st))) in
  let face_facing_ := face_facing_of self pitch_ yaw_ in
  let gaze_facing_ := face_facing_ in
  '(info, gaze_facing_, ratio_l, ratio_r) ←
    match pupil_detection self with
    | Some detect_pupil =>
        let '((pupil_l_x, pupil_l_y), (pupil_r_x, pupil_r_y)) :=
          pupils self detect_pupil framebg face in
        let info := <["r_eye" := Point pupil_r_x pupil_r_y]>
                      (<["l_eye" := Point pupil_l_x pupil_l_y]> info) in
        r_l ← center_h_ratio pupil_l_x (X (EYE_L_IN face)) (X (EYE_L_OUT face));
        r_r ← center_h_ratio pupil_r_x (X (EYE_R_OUT face)) (X (EYE_R_IN face));
        mret (info,
              facing_computation self face_facing_ yaw_ r_l r_r gaze_facing_,
              Some r_l, Some r_r)
    | None =>
        mret (info, gaze_facing_,
              pupil_l_center_h_ratio st, pupil_r_center_h_ratio st)
    end;
  let current_face_area := box_area face in
  let bigger := biggest_face_area st <? current_face_area in
  let st' :=
    {| frame := frame st;
       biggest_face_index :=
         if bigger then face_index else biggest_face_index st;
       biggest_face_area :=
         if bigger then current_face_area else biggest_face_area st;
       saved_info := info;
       nose_end_point2D := Some nose_end;
       pitch := Some pitch_;
       yaw := Some yaw_;
       roll := Some roll_;
       face_facing := Some face_facing_;
       gaze_facing := Some gaze_facing_;
       pupil_l_center_h_ratio := ratio_l;
       pupil_r_center_h_ratio := ratio_r |} in
  mret (if annotate_image self
        then with_frame st' {| nrows := nrows (frame st);
                               ncols := ncols (frame st);
                               cell := draw self st' face |}
        else st').

(** [for face_index, face in enumerate(faces)], from index [face_index]. *)
Fixpoint detect_loop (self : GazeDetection) (framebg : ndarray gray)
    (st : locals) (face_index : nat) (faces : list Face) : result locals :=
  match faces with
  | [] => mret st
  | face :: rest =>
      st' ← detect_face self framebg st face_index face;
      detect_loop self framebg st' (S face_index) rest
  end.

(** The locals on entering the loop (lines 137-140). *)
Definition init_locals (frame0 : ndarray bgr) : locals :=
  {| frame := frame0;
     biggest_face_index := 0%nat;
     biggest_face_area := 0;
     saved_info := ∅;
     nose_end_point2D := None;
     pitch := None; yaw := None; roll := None;
     face_facing := None; gaze_facing := None;
     pupil_l_center_h_ratio := None;
     pupil_r_center_h_ratio := None |}.

(** [faces[i]]. *)
Definition index {A} (l : list A) (i : nat) : result A :=
  match nth_error l i with
  | Some a => Ok a
  | None => Raise IndexError
  end.

(** Reading a local that is bound only inside the loop. *)
Definition bound {A} (v : option A) : result A :=
  match v with
  | Some a => Ok a
  | None => Raise UnboundLocalError
  end.

(** [self.serial_port.write(struct.pack('f', value))], as the list of the
    values handed to [write].  The statement sits in a [try] whose handler
    only prints a warning: when [__init__] could not open the port, both
    attributes are missing ([None]) and nothing is written; a failing
    transport changes nothing else in [detect]. *)
Definition serial_write (self : GazeDetection) (value : option Q) : list Q :=
  match serial_port self, value with
  | Some _, Some v => [v]
  | _, _ => []
  end.

(** Lines 292-303: what is handed to the serial port for the box of the
    biggest face in a frame [frame_w] pixels wide. *)
Definition steering (self : GazeDetection) (frame_w : Z) (box : Z * Z * Z * Z)
  : list Q :=
  let frame_center := (inject_Z frame_w / 2)%Q in
  let '(fx, fy, fw, fh) := box in
  let face_center := (inject_Z fx + inject_Z fw / 2)%Q in
  if print_on_serial self then
    if Qltb face_center (frame_center - 200)%Q
    then serial_write self (Qopp <$> serial_writing_step self)
    else if Qltb (frame_center + 200)%Q face_center
    then serial_write self (serial_writing_step self)
    else []
  else [].

(** Lines 307-308: the slice bounds [(r0, r1, c0, c1)] of the crop
    [frame[r0:r1, c0:c1]], for paddings [(top, right, bottom, left)] and
    [frame.shape = (frame_h, frame_w)]. *)
Definition crop_bounds (paddings : Q * Q * Q * Q) (frame_shape : Z * Z)
    (box : Z * Z * Z * Z) : Z * Z * Z * Z :=
  let '(pad_top, pad_right, pad_bottom, pad_left) := paddings in
  let '(frame_h, frame_w) := frame_shape in
  let '(fx, fy, fw, fh) := box in
  (Z.max (py_int (inject_Z fy - inject_Z fh * pad_top)) 0,
   Z.min (fy + py_int (inject_Z fh * (1 + pad_bottom))) frame_h,
   Z.max (py_int (inject_Z fx - inject_Z fw * pad_left)) 0,
   Z.min (fx + py_int (inject_Z fw * (1 + pad_right))) frame_w)%Q.

(** What [detect] returns, [info] being present under [return_info], and
    what it handed to the serial port meanwhile. *)
Record detect_return : Type := {
  ret_frame : ndarray bgr;
  ret_gaze_facing : bool;
  ret_info : option (gmap string info_value);
  serial_written : list Q
}.

(** Lines 290-311, on the locals the loop leaves. *)
Definition after_loop (self : GazeDetection) (faces : list Face) (st : locals)
  : result (ndarray bgr * bool * list Q) :=
  if (0 <? length faces)%nat then
    face ← index faces (biggest_face_index st);
    let written := steering self (ncols (frame st)) (BOX face) in
    let frame' :=
      if crop_frame self then
        let '(r0, r1, c0, c1) :=
          crop_bounds (crop_frame_paddings self) (shape (frame st)) (BOX face) in
        slice2 (frame st) r0 r1 c0 c1
      else frame st in
    gaze ← bound (gaze_facing st);
    mret (frame', gaze, written)
  else mret (frame st, false, []).

Definition detect (self : GazeDetection) (frame0 : ndarray bgr)
    (return_info : bool) : result detect_return :=
  let framebg := cvtColor frame0 in
  let faces := landmark_tracking self framebg in
  st ← detect_loop self framebg (init_locals frame0) 0 faces;
  '(frame', gaze, written) ← after_loop self faces st;
  mret {| ret_frame := frame';
          ret_gaze_facing := gaze;
          ret_info := if return_info then Some (saved_info st) else None;
          serial_written := written |}.

End Detect.

Arguments landmark_tracking {gray} _ _.
Arguments pupil_detection {gray} _.
Arguments pnp_solver {gray} _ _ _.
Arguments print_on_serial {gray} _.
Arguments serial_port {gray} _.
Arguments serial_writing_step {gray} _.
Arguments annotate_image {gray} _.
Arguments eye_frame_padding {gray} _.
Arguments crop_frame {gray} _.
Arguments crop_frame_paddings {gray} _.
Arguments face_facing_sensibility {gray} _.
Arguments frame {bgr} _.
Arguments biggest_face_index {bgr} _.
Arguments biggest_face_area {bgr} _.
Arguments saved_info {bgr} _.
Arguments nose_end_point2D {bgr} _.
Arguments pitch {bgr} _.
Arguments yaw {bgr} _.
Arguments roll {bgr} _.
Arguments face_facing {bgr} _.
Arguments gaze_facing {bgr} _.
Arguments pupil_l_center_h_ratio {bgr} _.
Arguments pupil_r_center_h_ratio {bgr} _.
Arguments with_frame {bgr} _ _.
Arguments face_facing_of {gray} _ _ _.
Arguments eyes {gray} _ _ _.
Arguments pupils {gray} _ _ _ _.
Arguments facing_computation {gray} _ _ _ _ _ _.
Arguments detect_face {bgr gray} _ _ _ _ _ _.
Arguments detect_loop {bgr gray} _ _ _ _ _ _.
Arguments init_locals {bgr} _.
Arguments serial_write {gray} _ _.
Arguments steering {gray} _ _ _.
Arguments ret_frame {bgr} _.
Arguments ret_gaze_facing {bgr} _.
Arguments ret_info {bgr} _.
Arguments serial_written {bgr} _.
Arguments after_loop {bgr gray} _ _ _.
Arguments detect {bgr gray} _ _ _ _ _.

(** The selector of the biggest face on its own: lines 216-219 folded
    over the faces from [face_index], with the running maximum. *)
Fixpoint biggest_face (faces : list Face) (face_index : nat)
    (biggest_face_index : nat) (biggest_face_area : Z) : nat * Z :=
  match faces with
  | [] => (biggest_face_index, biggest_face_area)
  | face :: rest =>
      if biggest_face_area <? box_area face
      then biggest_face rest (S face_index) face_index (box_area face)
      else biggest_face rest (S face_index) biggest_face_index biggest_face_area
  end.

(** ** Well-formed boxes

    A bounding box has a non-negative width and height. *)


(** ** The keys of the diagnostic record

    The keys an iteration of the loop writes in [saved_info]: the three
    angles, and the two eye points when a pupil locator is configured. *)

Definition info_keys {gray} (self : GazeDetection gray) : gset string :=
  {[ "pitch"; "yaw"; "roll" ]}
  ∪ match pupil_detection self with
    | Some _ => {[ "l_eye"; "r_eye" ]}
    | None => ∅
    end.

(** ** The crop rectangle of the spec

    Section 4.4 of the spec, word for word, on rationals: rows
    [max(fy - fh·pad_top, 0), min(fy + fh·(1 + pad_bottom), frame_h)] and
    columns [max(fx - fw·pad_left, 0), min(fx + fw·(1 + pad_right), frame_w)],
    for paddings (top, right, bottom, left). *)

Definition spec_crop_rectangle (paddings : Q * Q * Q * Q) (frame_w frame_h : Q)
    (box : Q * Q * Q * Q) : (Q * Q) * (Q * Q) :=
  let '(pad_top, pad_right, pad_bottom, pad_left) := paddings in
  let '(fx, fy, fw, fh) := box in
  ((Qmax (fy - fh * pad_top) 0, Qmin (fy + fh * (1 + pad_bottom)) frame_h),
   (Qmax (fx - fw * pad_left) 0, Qmin (fx + fw * (1 + pad_right)) frame_w))%Q.

(** ** Test doubles and sample inputs

    Concrete collaborators and faces on which the definitions above are
    run.  Pixels carry no information here ([unit]). *)

Module Sample.

(** A grey frame of 480 rows and 640 columns. *)
Definition gray_frame : ndarray unit := mk_ndarray 480 640 (fun _ _ => tt).

(** A colour frame of the same shape (frame_w = 640, frame_h = 480). *)
Definition color_frame : ndarray unit := mk_ndarray 480 640 (fun _ _ => tt).

Definition cvtColor (f : ndarray unit) : ndarray unit :=
  mk_ndarray (nrows f) (ncols f) (fun _ _ => tt).

Definition draw (self : GazeDetection unit) (st : locals unit) (face : Face)
  (i j : Z) : unit := tt.

(** A pose solver that reads the pitch off the nose abscissa and the yaw
    off the nose ordinate, so that a sample face chooses its own pose. *)
Definition pose_of_nose (frame_shape : Z * Z) (points : list (Z * Z))
  : list (Q * Q) * Q * Q * Q :=
  match points with
  | nose :: _ => ([], inject_Z (fst nose), inject_Z (snd nose), 0%Q)
  | [] => ([], 0%Q, 0%Q, 0%Q)
  end.

(** A pupil locator that always answers column 65, row 3 of the crop. *)
Definition pupil_at_65 (eye : ndarray unit) : Z * Z := (65, 3).

(** A pupil locator that answers the centre of the crop. *)
Definition pupil_at_center (eye : ndarray unit) : Z * Z :=
  (ncols eye / 2, nrows eye / 2).

(** A face whose pose is [pitch], [yaw] under [pose_of_nose], whose left
    eye spans the columns [200 .. 200 + eye_l_w] and right eye the columns
    [400 .. 400 + eye_r_w], with bounding box [box]. *)
Definition face_with (pitch yaw eye_l_w eye_r_w : Z) (box : Z * Z * Z * Z)
  : Face :=
  {| NOSE := (pitch, yaw);
     CHIN := (300, 260);
     EYE_L_OUT := (200 + eye_l_w, 150);
     EYE_L_IN := (200, 150);
     EYE_L_TOP := (250, 140);
     EYE_L_BOTTOM := (250, 160);
     EYE_R_OUT := (400, 150);
     EYE_R_IN := (400 + eye_r_w, 150);
     EYE_R_TOP := (450, 140);
     EYE_R_BOTTOM := (450, 160);
     MOUTH_L := (260, 230);
     MOUTH_R := (340, 230);
     BOX := box |}.

(** An object built with the defaults of [__init__], over the faces the
    landmark provider is to report, with the pupil locator, the serial
    switch and the eye padding as given. *)
Definition object (faces : list Face)
    (locator : option (ndarray unit -> Z * Z)) (serial : bool)
    (padding : Z * Z) : GazeDetection unit :=
  {| landmark_tracking := fun _ => faces;
     pupil_detection := locator;
     pnp_solver := pose_of_nose;
     print_on_serial := serial;
     serial_port := Some "/dev/tty.usbmodem1201"%string;
     serial_writing_step := Some 5%Q;
     annotate_image := false;
     eye_frame_padding := padding;
     crop_frame := true;
     crop_frame_paddings := ((1 # 2)%Q, 0%Q, (15 # 100)%Q, 0%Q);
     face_facing_sensibility := FACE_FACING_SENSIBILITY |}.

(** A frontal face (pitch 10, yaw 5). *)
Definition frontal : Face := face_with 10 5 100 100 (100, 50, 80, 60).

(** A frontal face whose pupils sit at the centre of 130-pixel eyes. *)
Definition centered : Face := face_with 10 5 130 130 (100, 50, 80, 60).


(** A face whose left eye corners share their abscissa. *)
Definition degenerate : Face := face_with 10 5 0 100 (300, 50, 80, 60).

(** Three faces whose boxes have the areas 100, 400 and 400. *)
Definition three_faces : list Face :=
  [face_with 10 5 100 100 (0, 0, 10, 10);
   face_with 30 5 100 100 (50, 0, 20, 20);
   face_with 10 5 100 100 (100, 0, 20, 20)].

(** A big frontal face followed by a small one that looks away. *)
Definition big_then_small : list Face :=
  [face_with 10 5 100 100 (100, 50, 80, 60);
   face_with 40 5 100 100 (400, 50, 10, 10)].

(** The default object without a pupil locator, and with the locator
    [pupil_at_65]; the landmark provider reports the frontal face. *)
Definition no_pupil : GazeDetection unit :=
  object [frontal] None true (0, 2).

Definition with_pupil : GazeDetection unit :=
  object [frontal] (Some pupil_at_65) true (0, 2).



(** The default object over the three faces of areas 100, 400, 400. *)
Definition three_faces_object : GazeDetection unit :=
  object three_faces (Some pupil_at_65) true (0, 2).

(** The default object when the provider finds no face. *)
Definition no_face : GazeDetection unit :=
  object [] (Some pupil_at_65) true (0, 2).

(** A face whose box is centred on column 50, and the default object
    over it with the serial switch on and off. *)
Definition left_face : Face := face_with 10 5 100 100 (10, 50, 80, 60).

Definition serial_on : GazeDetection unit :=
  object [left_face] None true (0, 2).

Definition serial_off : GazeDetection unit :=
  object [left_face] None false (0, 2).

(** The default object over [big_then_small]. *)
Definition two_faces_object : GazeDetection unit :=
  object big_then_small (Some pupil_at_65) true (0, 2).

(** The default object over the first face of [big_then_small] alone. *)
Definition big_face_object : GazeDetection unit :=
  object [face_with 10 5 100 100 (100, 50, 80, 60)] (Some pupil_at_65) true (0, 2).

(** The locals of [detect] on entering the loop for [color_frame]. *)
Definition entry : locals unit := init_locals color_frame.

End Sample.


(** ** The constructor and the two drivers it ends with

    [__init__] (lines 24-121) builds the object and then either loops on
    the camera ([video]) or processes one image ([image_path]).  What it
    does to the outside is recorded as a list of events. *)

From Stdlib Require Import Ascii.

(** ** Open eyes

    The inner and the outer corner of each eye of a face have different
    abscissas: the two denominators of lines 199-202 are not zero. *)

Definition eyes_open (face : Face) : Prop :=
  X (EYE_L_IN face) <> X (EYE_L_OUT face) /\
  X (EYE_R_IN face) <> X (EYE_R_OUT face).

Definition FILTERING : string := "filtering".
Definition GRAD_MEANS : string := "grad_means".
Definition NO_PUPIL_DETECTION : string := "no_pupil".

(** The keyword arguments of [__init__]. *)
Module kw.

Record args : Type := {
  predictor_path : option string;
  pupil_detection_mode : string;
  video : bool;
  image_path : option string;
  visual_verbose : bool;
  save_image : bool;
  print_on_serial : bool;
  serial_writing_step : Q;
  serial_port : string;
  annotate_image : bool;
  crop_frame : bool;
  crop_frame_paddings : Q * Q * Q * Q;
  face_facing_sensibility : Z;
  eye_frame_padding : Z * Z
}.

(** The default values of the signature. *)
Definition defaults : args :=
  {| predictor_path := None;
     pupil_detection_mode := GRAD_MEANS;
     video := true;
     image_path := None;
     visual_verbose := false;
     save_image := false;
     print_on_serial := true;
     serial_writing_step := 5%Q;
     serial_port := "/dev/tty.usbmodem1201";
     annotate_image := false;
     crop_frame := true;
     crop_frame_paddings := ((1 # 2)%Q, 0%Q, (15 # 100)%Q, 0%Q);
     face_facing_sensibility := FACE_FACING_SENSIBILITY;
     eye_frame_padding := (0, 2) |}.

End kw.

(** The constructors of the collaborators that [__init__] calls.
    [FaceLandmarkTracking] and [serial.Serial] may raise ([None]): these
    are the two calls that [__init__] wraps in a [try]. *)
Record Components (gray : Type) : Type := {
  FaceLandmarkTracking : string -> option (ndarray gray -> list Face);
  PupilDetectionMeansGradient : ndarray gray -> Z * Z;
  PupilDetectionFiltering : bool -> ndarray gray -> Z * Z;
  PnPSolver : Z * Z -> list (Z * Z) -> list (Q * Q) * Q * Q * Q;
  Serial : string -> Z -> option string
}.

Arguments FaceLandmarkTracking {gray} _ _.
Arguments PupilDetectionMeansGradient {gray} _ _.
Arguments PupilDetectionFiltering {gray} _ _ _.
Arguments PnPSolver {gray} _ _ _.
Arguments Serial {gray} _ _ _.

(** [os.path.join('src', 'resources', 'predictors', ...)], on POSIX. *)
Definition default_predictor_path : string :=
  "src/resources/predictors/shape_predictor_68_face_landmarks.dat".

Definition landmark_not_found : string :=
  "ERROR: Face landmark not found, please download and extract it from http://dlib.net/files/shape_predictor_68_face_landmarks.dat.bz2 and pass the .dat file as argument.".

(** *** [os.path.splitext], on POSIX paths

    [genericpath._splitext(p, '/', None, '.')]: the extension starts at
    the last dot, when that dot comes after the last slash and is
    preceded, in the file name, by a character that is not a dot. *)

(** [p.rfind(c)], scanning from index [i] with [found] the last hit so
    far; -1 stands for no hit. *)
Fixpoint rfind_from (c : ascii) (p : list ascii) (i found : Z) : Z :=
  match p with
  | [] => found
  | a :: rest => rfind_from c rest (i + 1) (if Ascii.eqb a c then i else found)
  end.

Definition rfind (c : ascii) (p : list ascii) : Z := rfind_from c p 0 (-1).

(** The [while] loop over the leading dots: whether some character of
    [p] at an index in [[from, to)] is not a dot. *)
Definition some_non_dot (p : list ascii) (from to : Z) : bool :=
  existsb (fun a => negb (Ascii.eqb a "."%char))
          (take (Z.to_nat (to - from)) (drop (Z.to_nat from) p)).

Definition splitext (path : string) : string * string :=
  let p := String.list_ascii_of_string path in
  let sepIndex := rfind "/"%char p in
  let dotIndex := rfind "."%char p in
  if (sepIndex <? dotIndex) && some_non_dot p (sepIndex + 1) dotIndex
  then (String.string_of_list_ascii (take (Z.to_nat dotIndex) p),
        String.string_of_list_ascii (drop (Z.to_nat dotIndex) p))
  else (path, EmptyString).

(** Lines 119-120: the path [save_image] writes to. *)
Definition edited_path (image_path : string) : string :=
  (fst (splitext image_path) ++ "_edited" ++ snd (splitext image_path))%string.

(** What [__init__] and its drivers do to the outside, in order: a value
    handed to the serial port, a frame shown, a frame written to a file. *)
Inductive event (bgr : Type) : Type :=
  | Write (value : Q)
  | Imshow (shown : ndarray bgr)
  | Imwrite (path : string) (written : ndarray bgr).

Arguments Write {bgr} value.
Arguments Imshow {bgr} shown.
Arguments Imwrite {bgr} path written.

(** How a driver ends: it returns, it raises, or, for the camera loop run
    on a finite recording, it is still waiting for the next frame when
    the recording is over. *)
Inductive run (bgr : Type) : Type :=
  | Returns (events : list (event bgr))
  | Raises (e : exn) (events : list (event bgr))
  | Waits (events : list (event bgr)).

Arguments Returns {bgr} events.
Arguments Raises {bgr} e events.
Arguments Waits {bgr} events.

(** The events of a run, and a run after earlier events. *)
Definition events_of {bgr} (r : run bgr) : list (event bgr) :=
  match r with
  | Returns events | Raises _ events | Waits events => events
  end.

Definition after {bgr} (earlier : list (event bgr)) (r : run bgr) : run bgr :=
  match r with
  | Returns events => Returns (earlier ++ events)
  | Raises e events => Raises e (earlier ++ events)
  | Waits events => Waits (earlier ++ events)
  end.

(** [__init__] either raises its own exception or sets the attributes
    and runs a driver. *)
Inductive construction (bgr gray : Type) : Type :=
  | NotFound (message : string)
  | Constructed (self : GazeDetection gray) (driver : run bgr).

Arguments NotFound {bgr gray} message.
Arguments Constructed {bgr gray} self driver.

Section Drivers.

Context {bgr gray : Type}.
Variable cvtColor : ndarray bgr -> ndarray gray.
Variable draw : GazeDetection gray -> locals bgr -> Face -> Z -> Z -> bgr.

(** [cv2.imread]. *)
Variable imread : string -> ndarray bgr.

(** The events of one [detect] followed by [cv2.imshow('frame', ...)]. *)
Definition detected (r : detect_return bgr) : list (event bgr) :=
  map Write (serial_written r) ++ [Imshow (ret_frame r)].

(** Lines 98-109: the camera loop, on a recording of the frames that
    [vid.read()] returns, each with the key code that [cv2.waitKey(1)]
    returns after it was shown.  The loop is left when
    [key & 0xFF == ord('q')]. *)
Fixpoint video_loop (self : GazeDetection gray)
    (recording : list (ndarray bgr * Z)) : run bgr :=
  match recording with
  | [] => Waits []
  | (frame, key) :: rest =>
      match detect cvtColor draw self frame false with
      | Raise e => Raises e []
      | Ok r =>
          if Z.land key 255 =? 113
          then Returns (detected r)
          else after (detected r) (video_loop self rest)
      end
  end.

(** Lines 111-121: one image. *)
Definition image_once (self : GazeDetection gray) (image_path : option string)
    (save_image : bool) : run bgr :=
  match image_path with
  | Some path =>
      match detect cvtColor draw self (imread path) false with
      | Raise e => Raises e []
      | Ok r =>
          Returns (detected r
                   ++ if save_image
                      then [Imwrite (edited_path path) (ret_frame r)]
                      else [])
      end
  | None => Returns []
  end.

(** Lines 59-95: the attributes, when the landmark predictor loads. *)
Definition attributes (components : Components gray) (a : kw.args)
  : option (GazeDetection gray) :=
  let path := match kw.predictor_path a with
              | Some path => path
              | None => default_predictor_path
              end in
  match FaceLandmarkTracking components path with
  | None => None
  | Some face_analysis =>
      let port :=
        if kw.print_on_serial a
        then Serial components (kw.serial_port a) 9600
        else None in
      Some {| landmark_tracking := face_analysis;
              pupil_detection :=
                if String.eqb (kw.pupil_detection_mode a) GRAD_MEANS
                then Some (PupilDetectionMeansGradient components)
                else if String.eqb (kw.pupil_detection_mode a) FILTERING
                then Some (PupilDetectionFiltering components
                             (kw.visual_verbose a))
                else None;
              pnp_solver := PnPSolver components;
              print_on_serial := kw.print_on_serial a;
              serial_port := port;
              serial_writing_step :=
                match port with
                | Some _ => Some (kw.serial_writing_step a)
                | None => None
                end;
              annotate_image := kw.annotate_image a;
              eye_frame_padding := kw.eye_frame_padding a;
              crop_frame := kw.crop_frame a;
              crop_frame_paddings := kw.crop_frame_paddings a;
              face_facing_sensibility := kw.face_facing_sensibility a |}
  end.

(** [GazeDetection(...)], the camera delivering [recording]. *)
Definition __init__ (components : Components gray) (a : kw.args)
    (recording : list (ndarray bgr * Z)) : construction bgr gray :=
  match attributes components a with
  | None => NotFound landmark_not_found
  | Some self =>
      Constructed self
        (if kw.video a then video_loop self recording
         else image_once self (kw.image_path a) (kw.save_image a))
  end.

End Drivers.

Arguments detected {bgr} _.
Arguments video_loop {bgr gray} _ _ _ _.
Arguments image_once {bgr gray} _ _ _ _ _ _.
Arguments attributes {gray} _ _.
Arguments __init__ {bgr gray} _ _ _ _ _ _.

(** The frames shown, the values handed to the serial port and the
    files written, among the events of a run. *)
Definition shown {bgr} (events : list (event bgr)) : list (ndarray bgr) :=
  flat_map (fun e => match e with Imshow f => [f] | _ => [] end) events.

Definition serial_values {bgr} (events : list (event bgr)) : list Q :=
  flat_map (fun e => match e with Write v => [v] | _ => [] end) events.

Definition files_written {bgr} (events : list (event bgr))
  : list (string * ndarray bgr) :=
  flat_map (fun e => match e with Imwrite path f => [(path, f)] | _ => [] end)
           events.

(** The key code ends the camera loop: [key & 0xFF == ord('q')]. *)
Definition quits (key : Z) : Prop := Z.land key 255 = 113.

(** ** A studio: sample collaborators for the constructor *)

Module Studio.

(** A landmark provider that reports the frontal sample face in a frame
    640 columns wide, the degenerate face before the frontal one in a
    frame 641 columns wide, and no face otherwise. *)
Definition face_analysis (framebg : ndarray unit) : list Face :=
  if ncols framebg =? 640 then [Sample.frontal]
  else if ncols framebg =? 641 then [Sample.degenerate; Sample.frontal]
  else [].

(** Collaborators that all load; the serial port opens or not. *)
Definition components (serial_opens : bool) : Components unit :=
  {| FaceLandmarkTracking := fun _ => Some face_analysis;
     PupilDetectionMeansGradient := Sample.pupil_at_center;
     PupilDetectionFiltering := fun _ => Sample.pupil_at_center;
     PnPSolver := Sample.pose_of_nose;
     Serial := fun port _ => if serial_opens then Some port else None |}.

(** Collaborators whose landmark predictor is missing. *)
Definition no_predictor : Components unit :=
  {| FaceLandmarkTracking := fun _ => None;
     PupilDetectionMeansGradient := Sample.pupil_at_center;
     PupilDetectionFiltering := fun _ => Sample.pupil_at_center;
     PnPSolver := Sample.pose_of_nose;
     Serial := fun port _ => Some port |}.

Definition frame_640 : ndarray unit := mk_ndarray 480 640 (fun _ _ => tt).
Definition frame_641 : ndarray unit := mk_ndarray 480 641 (fun _ _ => tt).

Definition imread (path : string) : ndarray unit := frame_640.

(** The default arguments with an eye padding of 3 columns and 2 rows. *)
Definition padded : kw.args :=
  {| kw.predictor_path := None;
     kw.pupil_detection_mode := GRAD_MEANS;
     kw.video := true;
     kw.image_path := None;
     kw.visual_verbose := false;
     kw.save_image := false;
     kw.print_on_serial := true;
     kw.serial_writing_step := 5%Q;
     kw.serial_port := "/dev/tty.usbmodem1201";
     kw.annotate_image := false;
     kw.crop_frame := true;
     kw.crop_frame_paddings := ((1 # 2)%Q, 0%Q, (15 # 100)%Q, 0%Q);
     kw.face_facing_sensibility := FACE_FACING_SENSIBILITY;
     kw.eye_frame_padding := (3, 2) |}.

(** The same without pupil detection. *)
Definition no_pupil : kw.args :=
  {| kw.predictor_path := None;
     kw.pupil_detection_mode := NO_PUPIL_DETECTION;
     kw.video := true;
     kw.image_path := None;
     kw.visual_verbose := false;
     kw.save_image := false;
     kw.print_on_serial := true;
     kw.serial_writing_step := 5%Q;
     kw.serial_port := "/dev/tty.usbmodem1201";
     kw.annotate_image := false;
     kw.crop_frame := true;
     kw.crop_frame_paddings := ((1 # 2)%Q, 0%Q, (15 # 100)%Q, 0%Q);
     kw.face_facing_sensibility := FACE_FACING_SENSIBILITY;
     kw.eye_frame_padding := (3, 2) |}.

(** One image, saved after detection. *)
Definition one_image : kw.args :=
  {| kw.predictor_path := None;
     kw.pupil_detection_mode := GRAD_MEANS;
     kw.video := false;
     kw.image_path := Some "photos/rdg.jpg"%string;
     kw.visual_verbose := false;
     kw.save_image := true;
     kw.print_on_serial := true;
     kw.serial_writing_step := 5%Q;
     kw.serial_port := "/dev/tty.usbmodem1201";
     kw.annotate_image := false;
     kw.crop_frame := true;
     kw.crop_frame_paddings := ((1 # 2)%Q, 0%Q, (15 # 100)%Q, 0%Q);
     kw.face_facing_sensibility := FACE_FACING_SENSIBILITY;
     kw.eye_frame_padding := (3, 2) |}.

(** The object these arguments build when the port opens. *)
Definition self_padded : GazeDetection unit :=
  {| landmark_tracking := face_analysis;
     pupil_detection := Some Sample.pupil_at_center;
     pnp_solver := Sample.pose_of_nose;
     print_on_serial := true;
     serial_port := Some "/dev/tty.usbmodem1201"%string;
     serial_writing_step := Some 5%Q;
     annotate_image := false;
     eye_frame_padding := (3, 2);
     crop_frame := true;
     crop_frame_paddings := ((1 # 2)%Q, 0%Q, (15 # 100)%Q, 0%Q);
     face_facing_sensibility := FACE_FACING_SENSIBILITY |}.

(** Recordings: two frames then a frame on which 'q' is pressed, and a
    frame with the degenerate face between two good ones. *)
Definition until_q : list (ndarray unit * Z) :=
  [(frame_640, -1); (frame_640, 255); (frame_640, 113); (frame_641, -1)].

Definition with_bad_frame : list (ndarray unit * Z) :=
  [(frame_640, -1); (frame_641, -1); (frame_640, 113)].

End Studio.

(** Further sample objects of [detect]: one face with yaw 0 and a pitch
    of 40, and the default object with neither crop nor annotation. *)
Module Sample2.

Definition nodding : Face := Sample.face_with 40 0 100 100 (100, 50, 80, 60).

Definition plain : GazeDetection unit :=
  {| landmark_tracking := fun _ => [Sample.frontal];
     pupil_detection := Some Sample.pupil_at_65;
     pnp_solver := Sample.pose_of_nose;
     print_on_serial := true;
     serial_port := Some "/dev/tty.usbmodem1201"%string;
     serial_writing_step := Some 5%Q;
     annotate_image := false;
     eye_frame_padding := (0, 2);
     crop_frame := false;
     crop_frame_paddings := ((1 # 2)%Q, 0%Q, (15 # 100)%Q, 0%Q);
     face_facing_sensibility := FACE_FACING_SENSIBILITY |}.

End Sample2.
(** ** Comparisons *)

Lemma Qltb_lt (x y : Q) : Qltb x y = true <-> (x < y)%Q.
Proof.
  unfold Qltb. rewrite negb_true_iff.
  split; intros H.
  - apply Qnot_le_lt. intros Hle. apply Qle_bool_iff in Hle. congruence.
  - destruct (Qle_bool y x) eqn:E; [|reflexivity].
    apply Qle_bool_iff in E. exfalso. exact (Qlt_not_le _ _ H E).
Qed.

Lemma Qltb_ge (x y : Q) : Qltb x y = false <-> (y <= x)%Q.
Proof.
  unfold Qltb. rewrite negb_false_iff. apply Qle_bool_iff.
Qed.

Lemma py_max_lt (a b c : Q) :
  (py_max a b < c)%Q <-> (a < c)%Q /\ (b < c)%Q.
Proof.
  unfold py_max. destruct (Qltb a b) eqn:E.
  - apply Qltb_lt in E. split.
    + intros H. split; [|exact H]. eapply Qlt_trans; eassumption.
    + intros [_ H]. exact H.
  - apply Qltb_ge in E. split.
    + intros H. split; [exact H|]. eapply Qle_lt_trans; eassumption.
    + intros [H _]. exact H.
Qed.

(** ** One iteration of the loop *)

Section Iteration.

Context {bgr gray : Type}.
Variable draw : GazeDetection gray -> locals bgr -> Face -> Z -> Z -> bgr.
Variable self : GazeDetection gray.
Variable framebg : ndarray gray.

(** What an iteration that returns leaves in the locals. *)
Lemma detect_face_Ok (st st' : locals bgr) (i : nat) (face : Face)
    (axes : list (Q * Q)) (p y r : Q) :
  pnp_solver self (shape (frame st)) (image_points face) = (axes, p, y, r) ->
  detect_face draw self framebg st i face = Ok st' ->
  pitch st' = Some p /\ yaw st' = Some y /\ roll st' = Some r /\
  face_facing st' = Some (face_facing_of self p y) /\
  shape (frame st') = shape (frame st) /\
  (biggest_face_index st', biggest_face_area st')
    = biggest_face [face] i (biggest_face_index st) (biggest_face_area st) /\
  match pupil_detection self with
  | None =>
      gaze_facing st' = Some (face_facing_of self p y) /\
      pupil_l_center_h_ratio st' = pupil_l_center_h_ratio st /\
      pupil_r_center_h_ratio st' = pupil_r_center_h_ratio st /\
      saved_info st' =
        <["roll" := Angle r]>
          (<["yaw" := Angle y]> (<["pitch" := Angle p]> (saved_info st)))
  | Some detect_pupil =>
      let '((lx, ly), (rx, ry)) := pupils self detect_pupil framebg face in
      exists r_l r_r : Q,
        center_h_ratio lx (X (EYE_L_IN face)) (X (EYE_L_OUT face)) = Ok r_l /\
        center_h_ratio rx (X (EYE_R_OUT face)) (X (EYE_R_IN face)) = Ok r_r /\
        pupil_l_center_h_ratio st' = Some r_l /\
        pupil_r_center_h_ratio st' = Some r_r /\
        gaze_facing st' =
          Some (facing_computation self (face_facing_of self p y) y r_l r_r
                  (face_facing_of self p y)) /\
        saved_info st' =
          <["r_eye" := Point rx ry]>
            (<["l_eye" := Point lx ly]>
               (<["roll" := Angle r]>
                  (<["yaw" := Angle y]>
                     (<["pitch" := Angle p]> (saved_info st)))))
  end.
Proof.
  intros Hpose. unfold detect_face. rewrite Hpose.
  destruct (pupil_detection self) as [detect_pupil|].
  - destruct (pupils self detect_pupil framebg face) as [[lx ly] [rx ry]].
    destruct (center_h_ratio lx _ _) as [r_l|e] eqn:El; [|discriminate].
    destruct (center_h_ratio rx _ _) as [r_r|e] eqn:Er; [|discriminate].
    cbn. intros H. injection H as <-.
    destruct (annotate_image self), (biggest_face_area st <? box_area face);
      cbn; repeat split; try reflexivity; exists r_l, r_r; repeat split.
  - cbn. intros H. injection H as <-.
    destruct (annotate_image self), (biggest_face_area st <? box_area face);
      cbn; repeat split.
Qed.

End Iteration.

(** ** The facing classifier *)

Lemma Qdiv_100 (x : Q) : (x / inject_Z 100 == x * (1 # 100))%Q.
Proof. change (inject_Z 100) with (100 # 1). field. Qed.

Lemma Qdiv_200 (x : Q) : (x / (2 * inject_Z 100) == x * (1 # 200))%Q.
Proof. change (inject_Z 100) with (100 # 1). field. Qed.

Lemma face_facing_of_true {gray} (self : GazeDetection gray) (p y : Q) :
  face_facing_of self p y = true <->
  (Qabs p < inject_Z (face_facing_sensibility self))%Q /\
  (Qabs y < inject_Z (face_facing_sensibility self))%Q.
Proof.
  unfold face_facing_of. rewrite andb_true_iff, !Qltb_lt. reflexivity.
Qed.

Lemma face_facing_of_false {gray} (self : GazeDetection gray) (p y : Q) :
  face_facing_of self p y = false <->
  (inject_Z (face_facing_sensibility self) <= Qabs p)%Q \/
  (inject_Z (face_facing_sensibility self) <= Qabs y)%Q.
Proof.
  unfold face_facing_of. rewrite andb_false_iff, !Qltb_ge. reflexivity.
Qed.

Section Classifier.

Context {bgr gray : Type}.
Variable draw : GazeDetection gray -> locals bgr -> Face -> Z -> Z -> bgr.
Variable self : GazeDetection gray.
Variable framebg : ndarray gray.

(** The threshold T_f of the object. *)
Let T_f : Q := inject_Z (face_facing_sensibility self).

(** C1.  For every face that [detect] processes, with [pitch] and [yaw]
    the angles the pose solver returns for it, [face_facing] is true if
    and only if |pitch| < T_f and |yaw| < T_f, and it is false if and only
    if |pitch| or |yaw| is at or beyond T_f. *)
Theorem face_facing_iff_within_sensibility
    (st st' : locals bgr) (i : nat) (face : Face)
    (axes : list (Q * Q)) (p y r : Q) :
  pnp_solver self (shape (frame st)) (image_points face) = (axes, p, y, r) ->
  detect_face draw self framebg st i face = Ok st' ->
  (face_facing st' = Some true <-> (Qabs p < T_f)%Q /\ (Qabs y < T_f)%Q) /\
  (face_facing st' = Some false <-> (T_f <= Qabs p)%Q \/ (T_f <= Qabs y)%Q).
Proof.
  intros Hpose Hrun.
  destruct (detect_face_Ok draw self framebg st st' i face axes p y r Hpose Hrun)
    as (_ & _ & _ & Hff & _).
  rewrite Hff. subst T_f. split.
  - rewrite <- face_facing_of_true. split; congruence.
  - rewrite <- face_facing_of_false. split; congruence.
Qed.

(** With a pupil locator, the gaze decision of an iteration is that of
    lines 205-213 on the ratios, the yaw and the face decision it leaves. *)
Lemma detect_face_gaze
    (detect_pupil : ndarray gray -> Z * Z)
    (st st' : locals bgr) (i : nat) (face : Face) (r_l r_r y : Q) (ff : bool) :
  pupil_detection self = Some detect_pupil ->
  detect_face draw self framebg st i face = Ok st' ->
  pupil_l_center_h_ratio st' = Some r_l ->
  pupil_r_center_h_ratio st' = Some r_r ->
  yaw st' = Some y ->
  face_facing st' = Some ff ->
  gaze_facing st' = Some (facing_computation self ff y r_l r_r ff).
Proof.
  intros Hloc Hrun Hl Hr Hy Hff.
  destruct (pnp_solver self (shape (frame st)) (image_points face))
    as [[[axes p] y'] r] eqn:Hpose.
  destruct (detect_face_Ok draw self framebg st st' i face axes p y' r Hpose Hrun)
    as (_ & Hy' & _ & Hff' & _ & _ & Hpup).
  rewrite Hloc in Hpup.
  destruct (pupils self detect_pupil framebg face) as [[lx ly] [rx ry]].
  destruct Hpup as (r_l' & r_r' & _ & _ & Hl' & Hr' & Hg & _).
  congruence.
Qed.


(** C3, as amended.  For a face processed with a pupil locator and found
    face-facing: when both ratios lie within [-T_f/(2M), T_f/(2M)],
    [gaze_facing] is true; when either ratio is at or above T_f/M in
    absolute value, [gaze_facing] is false. *)
Theorem gaze_facing_half_bound_then_true_full_bound_then_false
    (detect_pupil : ndarray gray -> Z * Z)
    (st st' : locals bgr) (i : nat) (face : Face) (r_l r_r y : Q) :
  pupil_detection self = Some detect_pupil ->
  detect_face draw self framebg st i face = Ok st' ->
  pupil_l_center_h_ratio st' = Some r_l ->
  pupil_r_center_h_ratio st' = Some r_r ->
  yaw st' = Some y ->
  face_facing st' = Some true ->
  let bound := (T_f / (2 * inject_Z EYE_RATIO_MULTIPLIER))%Q in
  ((- bound <= r_l <= bound)%Q /\ (- bound <= r_r <= bound)%Q ->
     gaze_facing st' = Some true) /\
  ((T_f / inject_Z EYE_RATIO_MULTIPLIER <= Qabs r_l)%Q \/
   (T_f / inject_Z EYE_RATIO_MULTIPLIER <= Qabs r_r)%Q ->
     gaze_facing st' = Some false).
Proof.
  intros Hloc Hrun Hl Hr Hy Hff bound.
  rewrite (detect_face_gaze detect_pupil st st' i face r_l r_r y true
             Hloc Hrun Hl Hr Hy Hff).
  assert (HT : (0 < T_f)%Q).
  { destruct (pnp_solver self (shape (frame st)) (image_points face))
      as [[[axes p'] y'] r] eqn:Hpose.
    destruct (detect_face_Ok draw self framebg st st' i face axes p' y' r
                Hpose Hrun) as (_ & _ & _ & Hff' & _).
    assert (Hb : face_facing_of self p' y' = true) by congruence.
    apply face_facing_of_true in Hb. destruct Hb as [Hb _].
    eapply Qle_lt_trans; [apply Qabs_nonneg|exact Hb]. }
  unfold facing_computation. fold T_f. subst bound.
  unfold EYE_RATIO_MULTIPLIER. split.
  - intros [Hrl Hrr].
    apply Qabs_Qle_condition in Hrl. apply Qabs_Qle_condition in Hrr.
    rewrite Qdiv_200 in Hrl, Hrr.
    assert (Hlt : (py_max (Qabs r_l) (Qabs r_r) < T_f / inject_Z 100)%Q).
    { apply py_max_lt. rewrite Qdiv_100. split; lra. }
    apply Qltb_lt in Hlt. rewrite Hlt. reflexivity.
  - intros Hor.
    assert (Hge : (T_f / inject_Z 100 <= py_max (Qabs r_l) (Qabs r_r))%Q).
    { apply Qnot_lt_le. intros Hlt. apply py_max_lt in Hlt.
      destruct Hlt as [H1 H2].
      destruct Hor as [H|H]; [exact (Qlt_not_le _ _ H1 H)|exact (Qlt_not_le _ _ H2 H)]. }
    apply Qltb_ge in Hge. rewrite Hge. reflexivity.
Qed.


End Classifier.

(** C1 on the frontal sample face (pitch 10, yaw 5, T_f = 20). *)
Lemma face_facing_iff_within_sensibility_witness :
  exists st',
    detect_face Sample.draw Sample.no_pupil Sample.gray_frame Sample.entry
      0 Sample.frontal = Ok st' /\
    (face_facing st' = Some true <->
       (Qabs 10 < inject_Z 20)%Q /\ (Qabs 5 < inject_Z 20)%Q) /\
    (face_facing st' = Some false <->
       (inject_Z 20 <= Qabs 10)%Q \/ (inject_Z 20 <= Qabs 5)%Q).
Proof.
  destruct (detect_face Sample.draw Sample.no_pupil Sample.gray_frame
              Sample.entry 0 Sample.frontal)
    as [st'|e] eqn:Hrun; [|vm_compute in Hrun; discriminate].
  exists st'. split; [reflexivity|].
  exact (face_facing_iff_within_sensibility Sample.draw Sample.no_pupil
           Sample.gray_frame Sample.entry st' 0%nat Sample.frontal
           [] 10%Q 5%Q 0%Q eq_refl Hrun).
Defined.

(** Running one iteration on a sample and reading the locals it leaves. *)
Ltac run_sample Hrun :=
  match goal with
  | |- exists st', ?run = Ok st' /\ _ =>
      destruct run as [st'|e] eqn:Hrun; [|vm_compute in Hrun; discriminate];
      exists st'; split; [reflexivity|]
  end.

Ltac read_sample Hrun :=
  vm_compute in Hrun; injection Hrun as <-; reflexivity.


(** C3 as stated fails on the frontal sample face: it is face-facing, its
    left ratio 0.15 is above T_f/(2M) = 0.1, and yet [gaze_facing] is
    true, not false. *)
Lemma gaze_facing_false_at_half_bound_counterexample :
  exists st',
    detect_face Sample.draw Sample.with_pupil Sample.gray_frame Sample.entry
      0 Sample.frontal = Ok st' /\
    face_facing st' = Some true /\
    pupil_l_center_h_ratio st' = Some (15 # 100)%Q /\
    (inject_Z (face_facing_sensibility Sample.with_pupil)
       / (2 * inject_Z EYE_RATIO_MULTIPLIER) <= Qabs (15 # 100))%Q /\
    gaze_facing st' = Some true /\
    gaze_facing st' <> Some false.
Proof.
  run_sample Hrun.
  vm_compute in Hrun. injection Hrun as <-.
  repeat split; try reflexivity; try discriminate.
Qed.

(** C3 as amended, on the centred sample face, whose two ratios are 0. *)
Lemma gaze_facing_half_bound_then_true_full_bound_then_false_witness :
  exists st',
    detect_face Sample.draw Sample.with_pupil Sample.gray_frame Sample.entry
      0 Sample.centered = Ok st' /\
    (pupil_l_center_h_ratio st' = Some (0 # 100)%Q /\
     pupil_r_center_h_ratio st' = Some (0 # 100)%Q /\
     yaw st' = Some 5%Q /\
     face_facing st' = Some true) /\
    ((- (inject_Z 20 / (2 * inject_Z EYE_RATIO_MULTIPLIER)) <= 0 # 100
        <= inject_Z 20 / (2 * inject_Z EYE_RATIO_MULTIPLIER))%Q /\
     (- (inject_Z 20 / (2 * inject_Z EYE_RATIO_MULTIPLIER)) <= 0 # 100
        <= inject_Z 20 / (2 * inject_Z EYE_RATIO_MULTIPLIER))%Q ->
       gaze_facing st' = Some true) /\
    ((inject_Z 20 / inject_Z EYE_RATIO_MULTIPLIER <= Qabs (0 # 100))%Q \/
     (inject_Z 20 / inject_Z EYE_RATIO_MULTIPLIER <= Qabs (0 # 100))%Q ->
       gaze_facing st' = Some false).
Proof.
  run_sample Hrun.
  assert (Hl : pupil_l_center_h_ratio st' = Some (0 # 100)%Q) by read_sample Hrun.
  assert (Hr : pupil_r_center_h_ratio st' = Some (0 # 100)%Q) by read_sample Hrun.
  assert (Hy : yaw st' = Some 5%Q) by read_sample Hrun.
  assert (Hf : face_facing st' = Some true) by read_sample Hrun.
  split; [repeat split; assumption|].
  exact (gaze_facing_half_bound_then_true_full_bound_then_false Sample.draw
           Sample.with_pupil Sample.gray_frame Sample.pupil_at_65 Sample.entry
           st' 0%nat Sample.centered _ _ _ eq_refl Hrun Hl Hr Hy Hf).
Defined.


(** ** The loop over the faces *)

Section Loop.

Context {bgr gray : Type}.
Variable draw : GazeDetection gray -> locals bgr -> Face -> Z -> Z -> bgr.
Variable self : GazeDetection gray.
Variable framebg : ndarray gray.

(** The loop over a concatenation runs the first part, then the second
    from the locals and the index the first part leaves. *)
Lemma detect_loop_app (pre post : list Face) (st : locals bgr) (i : nat) :
  detect_loop draw self framebg st i (pre ++ post) =
  (st1 ← detect_loop draw self framebg st i pre;
   detect_loop draw self framebg st1 (i + length pre) post).
Proof.
  revert st i. induction pre as [|face pre IH]; intros st i.
  - cbn. rewrite Nat.add_0_r. reflexivity.
  - cbn [app detect_loop length].
    destruct (detect_face draw self framebg st i face) as [st'|e]; cbn.
    + rewrite IH. rewrite Nat.add_succ_r. reflexivity.
    + reflexivity.
Qed.

(** The only exception an iteration raises is the zero division of a
    ratio. *)
Lemma detect_face_raises (st : locals bgr) (i : nat) (face : Face) (e : exn) :
  detect_face draw self framebg st i face = Raise e -> e = ZeroDivisionError.
Proof.
  unfold detect_face.
  destruct (pnp_solver self _ _) as [[[axes p] y] r].
  destruct (pupil_detection self) as [detect_pupil|]; [|discriminate].
  destruct (pupils self detect_pupil framebg face) as [[lx ly] [rx ry]].
  unfold center_h_ratio, py_truediv.
  destruct (X (EYE_L_OUT face) - X (EYE_L_IN face) =? 0); cbn; [congruence|].
  destruct (X (EYE_R_IN face) - X (EYE_R_OUT face) =? 0); cbn;
    [congruence|discriminate].
Qed.

Lemma detect_loop_raises (faces : list Face) (st : locals bgr) (i : nat) (e : exn) :
  detect_loop draw self framebg st i faces = Raise e -> e = ZeroDivisionError.
Proof.
  revert st i. induction faces as [|face faces IH]; intros st i; cbn.
  - discriminate.
  - destruct (detect_face draw self framebg st i face) as [st'|e'] eqn:E; cbn.
    + apply IH.
    + intros H. injection H as <-. exact (detect_face_raises _ _ _ _ E).
Qed.

(** Without a pupil locator no iteration raises. *)
Lemma detect_face_no_pupil (st : locals bgr) (i : nat) (face : Face) :
  pupil_detection self = None ->
  is_Ok (detect_face draw self framebg st i face).
Proof.
  intros Hnone. unfold detect_face.
  destruct (pnp_solver self _ _) as [[[axes p] y] r].
  rewrite Hnone. exact I.
Qed.

Lemma detect_loop_no_pupil (faces : list Face) (st : locals bgr) (i : nat) :
  pupil_detection self = None ->
  is_Ok (detect_loop draw self framebg st i faces).
Proof.
  intros Hnone. revert st i.
  induction faces as [|face faces IH]; intros st i; cbn; [exact I|].
  pose proof (detect_face_no_pupil st i face Hnone) as Hok.
  destruct (detect_face draw self framebg st i face) as [st'|e]; cbn.
  - apply IH.
  - destruct Hok.
Qed.

(** An eye whose corners share their abscissa makes the iteration raise. *)
Lemma detect_face_degenerate
    (detect_pupil : ndarray gray -> Z * Z)
    (st : locals bgr) (i : nat) (face : Face) :
  pupil_detection self = Some detect_pupil ->
  X (EYE_L_IN face) = X (EYE_L_OUT face) \/
  X (EYE_R_IN face) = X (EYE_R_OUT face) ->
  detect_face draw self framebg st i face = Raise ZeroDivisionError.
Proof.
  intros Hloc Hdeg. unfold detect_face.
  destruct (pnp_solver self _ _) as [[[axes p] y] r].
  rewrite Hloc.
  destruct (pupils self detect_pupil framebg face) as [[lx ly] [rx ry]].
  unfold center_h_ratio, py_truediv.
  destruct (X (EYE_L_OUT face) - X (EYE_L_IN face) =? 0) eqn:El; cbn;
    [reflexivity|].
  destruct (X (EYE_R_IN face) - X (EYE_R_OUT face) =? 0) eqn:Er; cbn;
    [reflexivity|].
  apply Z.eqb_neq in El, Er. lia.
Qed.

(** The loop leaves the shape of the frame alone, and its running maximum
    is the one of [biggest_face]. *)
Lemma detect_loop_Ok (faces : list Face) (st st' : locals bgr) (i : nat) :
  detect_loop draw self framebg st i faces = Ok st' ->
  shape (frame st') = shape (frame st) /\
  (biggest_face_index st', biggest_face_area st')
    = biggest_face faces i (biggest_face_index st) (biggest_face_area st) /\
  (annotate_image self = false -> frame st' = frame st).
Proof.
  revert st i. induction faces as [|face faces IH]; intros st i; cbn.
  - intros H. injection H as <-. repeat split.
  - destruct (detect_face draw self framebg st i face) as [st1|e] eqn:E; cbn;
      [|discriminate].
    intros Hrest. destruct (IH _ _ Hrest) as (Hs & Hb & Hf).
    destruct (pnp_solver self (shape (frame st)) (image_points face))
      as [[[axes p] y] r] eqn:Hpose.
    destruct (detect_face_Ok draw self framebg st st1 i face axes p y r Hpose E)
      as (_ & _ & _ & _ & Hs1 & Hb1 & _).
    split; [congruence|]. split.
    + rewrite Hb. cbn in Hb1.
      destruct (biggest_face_area st <? box_area face);
        injection Hb1 as -> ->; reflexivity.
    + intros Hann. rewrite (Hf Hann).
      revert E. unfold detect_face. rewrite Hpose, Hann.
      destruct (match pupil_detection self with Some _ => _ | None => _ end)
        as [[[[info g] rl] rr]|e]; cbn; [|discriminate].
      intros H. injection H as <-. reflexivity.
Qed.

End Loop.

(** ** A degenerate eye *)




(** ** The biggest face *)

(** Either no face beats the running maximum, which is kept, or the
    selector answers the first face of maximal area, which beats it. *)
Lemma biggest_face_spec (faces : list Face) :
  forall (i idx : nat) (a : Z),
    (Forall (fun f => box_area f <= a) faces /\
     biggest_face faces i idx a = (idx, a)) \/
    (exists (k : nat) (f : Face),
        nth_error faces k = Some f /\
        biggest_face faces i idx a = ((i + k)%nat, box_area f) /\
        a < box_area f /\
        (forall k' f', nth_error faces k' = Some f' -> box_area f' <= box_area f) /\
        (forall k' f', (k' < k)%nat -> nth_error faces k' = Some f' ->
                       box_area f' < box_area f)).
Proof.
  induction faces as [|face rest IH]; intros i idx a.
  - left. split; [constructor|reflexivity].
  - cbn [biggest_face]. destruct (a <? box_area face) eqn:E.
    + apply Z.ltb_lt in E. right.
      destruct (IH (S i) i (box_area face)) as [[Hall ->]|(k & f & Hk & -> & Hlt & Hmax & Hfirst)].
      * exists 0%nat, face. rewrite Nat.add_0_r.
        repeat split; [exact E| |].
        -- intros [|k'] f' Hk'; cbn in Hk'.
           ++ injection Hk' as <-. lia.
           ++ rewrite List.Forall_forall in Hall. apply Hall.
              eapply nth_error_In. exact Hk'.
        -- intros k' f' Hlt. lia.
      * exists (S k), f. rewrite Nat.add_succ_r.
        repeat split; [exact Hk|lia| |].
        -- intros [|k'] f' Hk'; cbn in Hk'.
           ++ injection Hk' as <-. lia.
           ++ exact (Hmax _ _ Hk').
        -- intros [|k'] f' Hlt' Hk'; cbn in Hk'.
           ++ injection Hk' as <-. exact Hlt.
           ++ apply (Hfirst k'); [lia|exact Hk'].
    + apply Z.ltb_ge in E.
      destruct (IH (S i) idx a) as [[Hall ->]|(k & f & Hk & -> & Hlt & Hmax & Hfirst)].
      * left. split; [constructor; assumption|reflexivity].
      * right. exists (S k), f. rewrite Nat.add_succ_r.
        repeat split; [exact Hk|exact Hlt| |].
        -- intros [|k'] f' Hk'; cbn in Hk'.
           ++ injection Hk' as <-. lia.
           ++ exact (Hmax _ _ Hk').
        -- intros [|k'] f' Hlt' Hk'; cbn in Hk'.
           ++ injection Hk' as <-. lia.
           ++ apply (Hfirst k'); [lia|exact Hk'].
Qed.




(** ** No face *)

(** C7.  When the landmark provider reports no face, [detect] returns the
    frame it was given, uncropped, with [gaze_facing] false, and hands
    nothing to the serial port. *)
Theorem no_face_passes_frame_through {bgr gray : Type}
    (cvtColor : ndarray bgr -> ndarray gray)
    (draw : GazeDetection gray -> locals bgr -> Face -> Z -> Z -> bgr)
    (self : GazeDetection gray) (frame0 : ndarray bgr) (return_info : bool) :
  landmark_tracking self (cvtColor frame0) = [] ->
  detect cvtColor draw self frame0 return_info =
  Ok {| ret_frame := frame0;
        ret_gaze_facing := false;
        ret_info := if return_info then Some ∅ else None;
        serial_written := [] |}.
Proof.
  intros Hempty. unfold detect. rewrite Hempty. reflexivity.
Qed.

(** C7 on the sample object whose provider finds no face. *)
Lemma no_face_passes_frame_through_witness :
  landmark_tracking Sample.no_face (Sample.cvtColor Sample.color_frame) = [] /\
  detect Sample.cvtColor Sample.draw Sample.no_face Sample.color_frame true =
  Ok {| ret_frame := Sample.color_frame;
        ret_gaze_facing := false;
        ret_info := Some ∅;
        serial_written := [] |}.
Proof.
  split; [reflexivity|].
  exact (no_face_passes_frame_through Sample.cvtColor Sample.draw
           Sample.no_face Sample.color_frame true eq_refl).
Defined.

(** ** Crop and steering *)

Lemma index_Ok_length {A} (l : list A) (i : nat) (a : A) :
  index l i = Ok a -> (0 <? length l)%nat = true.
Proof.
  unfold index. destruct l as [|x l]; [destruct i; discriminate|reflexivity].
Qed.

(** C8.  For the biggest face box fx=100, fy=50, fw=80, fh=60, a frame of
    640x480 and crop paddings (0.5, 0, 0.15, 0), the crop of [detect] is
    [frame[20:119, 100:180]]: rows [20, 119] and columns [100, 180], the
    values of the formula of the spec, which leave 99 rows and 80
    columns. *)
Theorem crop_of_the_sample_box {bgr gray : Type}
    (self : GazeDetection gray) (faces : list Face) (st : locals bgr)
    (face : Face) (g : bool) :
  crop_frame self = true ->
  crop_frame_paddings self = ((1 # 2), 0, (15 # 100), 0)%Q ->
  shape (frame st) = (480, 640) ->
  index faces (biggest_face_index st) = Ok face ->
  BOX face = (100, 50, 80, 60) ->
  gaze_facing st = Some g ->
  crop_bounds (crop_frame_paddings self) (shape (frame st)) (BOX face)
    = (20, 119, 100, 180) /\
  (let '((r0, r1), (c0, c1)) :=
     spec_crop_rectangle (crop_frame_paddings self) 640 480 (100, 50, 80, 60)%Q in
   r0 == 20 /\ r1 == 119 /\ c0 == 100 /\ c1 == 180)%Q /\
  (exists written : list Q,
      after_loop self faces st
        = Ok (slice2 (frame st) 20 119 100 180, g, written)) /\
  shape (slice2 (frame st) 20 119 100 180) = (99, 80).
Proof.
  intros Hcrop Hpad Hshape Hidx Hbox Hg.
  assert (Hb : crop_bounds (crop_frame_paddings self) (shape (frame st)) (BOX face)
               = (20, 119, 100, 180))
    by (rewrite Hpad, Hshape, Hbox; reflexivity).
  split; [exact Hb|]. split; [rewrite Hpad; vm_compute; repeat split; discriminate|].
  split.
  - unfold after_loop. rewrite (index_Ok_length _ _ _ Hidx), Hidx. cbn.
    rewrite Hcrop, Hb, Hg. cbn. eexists. reflexivity.
  - unfold shape in *. injection Hshape as Hr Hc.
    unfold slice2, slice_range. rewrite Hr, Hc. reflexivity.
Qed.

(** C8 on the frontal sample face, alone in a frame of 640x480. *)
Lemma crop_of_the_sample_box_witness :
  exists st',
    detect_loop Sample.draw Sample.no_pupil Sample.gray_frame
      (init_locals Sample.color_frame) 0 [Sample.frontal] = Ok st' /\
    (crop_frame Sample.no_pupil = true /\
     crop_frame_paddings Sample.no_pupil = ((1 # 2), 0, (15 # 100), 0)%Q /\
     shape (frame st') = (480, 640) /\
     index [Sample.frontal] (biggest_face_index st') = Ok Sample.frontal /\
     BOX Sample.frontal = (100, 50, 80, 60) /\
     gaze_facing st' = Some true) /\
    crop_bounds (crop_frame_paddings Sample.no_pupil) (shape (frame st'))
      (BOX Sample.frontal) = (20, 119, 100, 180) /\
    (exists written : list Q,
        after_loop Sample.no_pupil [Sample.frontal] st'
          = Ok (slice2 (frame st') 20 119 100 180, true, written)) /\
    shape (slice2 (frame st') 20 119 100 180) = (99, 80).
Proof.
  run_sample Hrun.
  assert (Hs : shape (frame st') = (480, 640)) by read_sample Hrun.
  assert (Hi : index [Sample.frontal] (biggest_face_index st') = Ok Sample.frontal)
    by read_sample Hrun.
  assert (Hg : gaze_facing st' = Some true) by read_sample Hrun.
  split; [repeat split; assumption || reflexivity|].
  destruct (crop_of_the_sample_box Sample.no_pupil [Sample.frontal] st'
              Sample.frontal true eq_refl eq_refl Hs Hi eq_refl Hg)
    as (Hb & _ & Hafter & Hshape).
  repeat split; assumption.
Defined.

(** C9, as amended.  With the serial output switched on and the port
    opened by [__init__], for the box (fx, fy, fw, fh) of the biggest
    face, cx = fx + fw/2 and center = frame_w/2, [detect] hands -S to the
    port when cx < center - 200, +S when cx > center + 200, and nothing
    otherwise; for a step S other than 0, where -S, +S and nothing are
    three different outcomes, each is handed exactly in its case.  With
    frame_w = 640, a face centre of 50 gives -S, of 550 gives +S and of
    320 gives nothing. *)
Theorem steering_when_serial_enabled {bgr gray : Type}
    (self : GazeDetection gray) (faces : list Face) (st : locals bgr)
    (face : Face) (fx fy fw fh : Z) (g : bool) (port : string) (S : Q) :
  print_on_serial self = true ->
  serial_port self = Some port ->
  serial_writing_step self = Some S ->
  index faces (biggest_face_index st) = Ok face ->
  BOX face = (fx, fy, fw, fh) ->
  gaze_facing st = Some g ->
  let cx := (inject_Z fx + inject_Z fw / 2)%Q in
  let center := (inject_Z (ncols (frame st)) / 2)%Q in
  exists (fr : ndarray bgr) (written : list Q),
    after_loop self faces st = Ok (fr, g, written) /\
    ((cx < center - 200)%Q -> written = [(- S)%Q]) /\
    ((center + 200 < cx)%Q -> written = [S]) /\
    ((center - 200 <= cx <= center + 200)%Q -> written = []) /\
    (written = [] <-> (center - 200 <= cx <= center + 200)%Q) /\
    (~ (S == 0)%Q ->
       (written = [(- S)%Q] <-> (cx < center - 200)%Q) /\
       (written = [S] <-> (center + 200 < cx)%Q)) /\
    (ncols (frame st) = 640 ->
       ((cx == 50)%Q -> written = [(- S)%Q]) /\
       ((cx == 550)%Q -> written = [S]) /\
       ((cx == 320)%Q -> written = [])).
Proof.
  intros Hon Hport Hstep Hidx Hbox Hg cx center.
  unfold after_loop. rewrite (index_Ok_length _ _ _ Hidx), Hidx. cbn.
  rewrite Hg. cbn. eexists. eexists. split; [reflexivity|].
  unfold steering. rewrite Hbox, Hon. fold cx center.
  unfold serial_write. rewrite Hport, Hstep. cbn.
  assert (Hcases :
    ((cx < center - 200)%Q ->
       (if Qltb cx (center - 200) then [(- S)%Q]
        else if Qltb (center + 200) cx then [S] else []) = [(- S)%Q]) /\
    ((center + 200 < cx)%Q ->
       (if Qltb cx (center - 200) then [(- S)%Q]
        else if Qltb (center + 200) cx then [S] else []) = [S]) /\
    ((center - 200 <= cx <= center + 200)%Q ->
       (if Qltb cx (center - 200) then [(- S)%Q]
        else if Qltb (center + 200) cx then [S] else []) = [])).
  { split; [|split].
    - intros H. apply Qltb_lt in H. rewrite H. reflexivity.
    - intros H.
      assert (E : Qltb cx (center - 200) = false) by (apply Qltb_ge; lra).
      apply Qltb_lt in H. rewrite E, H. reflexivity.
    - intros [H1 H2]. apply Qltb_ge in H1, H2. rewrite H1, H2. reflexivity. }
  destruct Hcases as (Hl & Hr & Hm).
  split; [exact Hl|]. split; [exact Hr|]. split; [exact Hm|].
  assert (Hcover : (cx < center - 200)%Q \/ (center + 200 < cx)%Q \/
                   (center - 200 <= cx <= center + 200)%Q).
  { destruct (Qlt_le_dec cx (center - 200)) as [H|H]; [left; exact H|].
    destruct (Qlt_le_dec (center + 200) cx) as [H'|H']; [right; left; exact H'|].
    right; right. split; assumption. }
  split.
  { split; [|exact Hm]. intros Hw.
    destruct Hcover as [H|[H|H]]; [| |exact H].
    - rewrite (Hl H) in Hw. discriminate.
    - rewrite (Hr H) in Hw. discriminate. }
  split.
  { intros HS.
    assert (Hdiff : (- S)%Q <> S).
    { intros E. apply HS. destruct S as [n d]. unfold Qopp in E. cbn in E.
      injection E as E. unfold Qeq. cbn. lia. }
    split; (split; [intros Hw|auto]).
    - destruct Hcover as [H|[H|H]]; [exact H| |].
      + rewrite (Hr H) in Hw. congruence.
      + rewrite (Hm H) in Hw. discriminate.
    - destruct Hcover as [H|[H|H]]; [|exact H|].
      + rewrite (Hl H) in Hw. congruence.
      + rewrite (Hm H) in Hw. discriminate. }
  intros Hw. subst center. rewrite Hw in *.
  change (inject_Z 640 / 2)%Q with (640 # 2)%Q in *.
  split; [|split]; intros Hc.
  - apply Hl. rewrite Hc. reflexivity.
  - apply Hr. rewrite Hc. reflexivity.
  - apply Hm. rewrite Hc. split; discriminate.
Qed.

(** C9 as amended, on the sample face centred on column 50, with the
    serial output on and a step of 5. *)
Lemma steering_when_serial_enabled_witness :
  exists st',
    detect_loop Sample.draw Sample.serial_on Sample.gray_frame
      (init_locals Sample.color_frame) 0 [Sample.left_face] = Ok st' /\
    (print_on_serial Sample.serial_on = true /\
     serial_port Sample.serial_on = Some "/dev/tty.usbmodem1201"%string /\
     serial_writing_step Sample.serial_on = Some 5%Q /\
     index [Sample.left_face] (biggest_face_index st') = Ok Sample.left_face /\
     BOX Sample.left_face = (10, 50, 80, 60) /\
     gaze_facing st' = Some true) /\
    (inject_Z 10 + inject_Z 80 / 2 < inject_Z (ncols (frame st')) / 2 - 200)%Q /\
    exists fr : ndarray unit,
      after_loop Sample.serial_on [Sample.left_face] st' = Ok (fr, true, [(- 5)%Q]).
Proof.
  run_sample Hrun.
  assert (Hi : index [Sample.left_face] (biggest_face_index st') = Ok Sample.left_face)
    by read_sample Hrun.
  assert (Hg : gaze_facing st' = Some true) by read_sample Hrun.
  assert (Hlt : (inject_Z 10 + inject_Z 80 / 2
                 < inject_Z (ncols (frame st')) / 2 - 200)%Q)
    by read_sample Hrun.
  split; [repeat split; assumption || reflexivity|].
  split; [exact Hlt|].
  destruct (steering_when_serial_enabled Sample.serial_on [Sample.left_face] st'
              Sample.left_face 10 50 80 60 true _ 5%Q
              eq_refl eq_refl eq_refl Hi eq_refl Hg)
    as (fr & written & Hafter & Hleft & _).
  exists fr. rewrite Hafter, (Hleft Hlt). reflexivity.
Defined.

(** C9 as stated fails when the serial output is switched off: for a
    frame 640 wide and a biggest face centred on column 50, left of
    320 - 200, [detect] hands nothing to the port. *)
Lemma steering_switched_off_counterexample :
  landmark_tracking Sample.serial_off (Sample.cvtColor Sample.color_frame)
    = [Sample.left_face] /\
  BOX Sample.left_face = (10, 50, 80, 60) /\
  ncols Sample.color_frame = 640 /\
  (inject_Z 10 + inject_Z 80 / 2 == 50)%Q /\
  (inject_Z 10 + inject_Z 80 / 2 < inject_Z 640 / 2 - 200)%Q /\
  print_on_serial Sample.serial_off = false /\
  serial_written <$>
    detect Sample.cvtColor Sample.draw Sample.serial_off Sample.color_frame true
    = Ok [] /\
  serial_written <$>
    detect Sample.cvtColor Sample.draw Sample.serial_on Sample.color_frame true
    = Ok [(- 5)%Q].
Proof.
  repeat split; reflexivity.
Qed.

(** ** What [detect] reports for several faces *)

Section LastFace.

Context {bgr gray : Type}.
Variable draw : GazeDetection gray -> locals bgr -> Face -> Z -> Z -> bgr.
Variable self : GazeDetection gray.
Variable framebg : ndarray gray.

(** An iteration leaves in [saved_info] exactly the keys it writes, when
    it found no other key there. *)
Lemma detect_face_info_keys (st st' : locals bgr) (i : nat) (face : Face) :
  detect_face draw self framebg st i face = Ok st' ->
  dom (saved_info st) ⊆ info_keys self ->
  dom (saved_info st') ⊆ info_keys self.
Proof.
  intros Hrun Hdom.
  destruct (pnp_solver self (shape (frame st)) (image_points face))
    as [[[axes p] y] r] eqn:Hpose.
  destruct (detect_face_Ok draw self framebg st st' i face axes p y r Hpose Hrun)
    as (_ & _ & _ & _ & _ & _ & Hpup).
  unfold info_keys in *.
  destruct (pupil_detection self) as [detect_pupil|].
  - destruct (pupils self detect_pupil framebg face) as [[lx ly] [rx ry]].
    destruct Hpup as (r_l & r_r & _ & _ & _ & _ & _ & ->).
    rewrite !dom_insert_L. set_unfold. intros k. specialize (Hdom k). tauto.
  - destruct Hpup as (_ & _ & _ & ->).
    rewrite !dom_insert_L. set_unfold. intros k. specialize (Hdom k). tauto.
Qed.

Lemma detect_loop_info_keys (faces : list Face) (st st' : locals bgr) (i : nat) :
  detect_loop draw self framebg st i faces = Ok st' ->
  dom (saved_info st) ⊆ info_keys self ->
  dom (saved_info st') ⊆ info_keys self.
Proof.
  revert st i. induction faces as [|face faces IH]; intros st i; cbn.
  - intros H. injection H as <-. exact (fun H => H).
  - destruct (detect_face draw self framebg st i face) as [st1|e] eqn:E; cbn;
      [|discriminate].
    intros Hrest Hdom. apply (IH _ _ Hrest).
    exact (detect_face_info_keys _ _ _ _ E Hdom).
Qed.

(** A key that is none of those written is in no well-keyed record. *)
Ltac foreign_key :=
  match goal with
  | Hdom : dom ?m ⊆ _ |- ?k ∉ dom ?m =>
      let Hin := fresh "Hin" in
      intros Hin; apply Hdom in Hin; set_unfold; intuition congruence
  end.

(** What an iteration reports for a face does not depend on the locals
    it starts from, as long as the frame has the same shape and the
    record holds no foreign key: the same face processed from other
    such locals leaves the same decisions and the same record. *)
Lemma detect_face_forgets (st st' st0 : locals bgr) (i j : nat) (face : Face) :
  detect_face draw self framebg st i face = Ok st' ->
  shape (frame st0) = shape (frame st) ->
  dom (saved_info st) ⊆ info_keys self ->
  dom (saved_info st0) ⊆ info_keys self ->
  exists st0',
    detect_face draw self framebg st0 j face = Ok st0' /\
    face_facing st0' = face_facing st' /\
    gaze_facing st0' = gaze_facing st' /\
    pitch st0' = pitch st' /\ yaw st0' = yaw st' /\ roll st0' = roll st' /\
    saved_info st0' = saved_info st'.
Proof.
  intros Hrun Hshape Hdom Hdom0.
  destruct (pnp_solver self (shape (frame st)) (image_points face))
    as [[[axes p] y] r] eqn:Hpose.
  pose proof (detect_face_Ok draw self framebg st st' i face axes p y r Hpose Hrun)
    as (Hp & Hy & Hr & Hff & _ & _ & Hpup).
  destruct (detect_face draw self framebg st0 j face) as [st0'|e] eqn:Hrun0.
  - rewrite <- Hshape in Hpose.
    pose proof (detect_face_Ok draw self framebg st0 st0' j face axes p y r
                  Hpose Hrun0) as (Hp0 & Hy0 & Hr0 & Hff0 & _ & _ & Hpup0).
    exists st0'. split; [reflexivity|].
    repeat (split; [congruence|]).
    unfold info_keys in Hdom, Hdom0.
    destruct (pupil_detection self) as [detect_pupil|].
    + destruct (pupils self detect_pupil framebg face) as [[lx ly] [rx ry]].
      destruct Hpup as (r_l & r_r & El & Er & _ & _ & Hg & Hinfo).
      destruct Hpup0 as (r_l0 & r_r0 & El0 & Er0 & _ & _ & Hg0 & Hinfo0).
      repeat (split; [congruence|]).
      rewrite Hinfo, Hinfo0. apply map_eq. intros k.
      rewrite !lookup_insert. repeat case_decide; try reflexivity.
      transitivity (@None info_value);
        [|symmetry]; apply not_elem_of_dom; foreign_key.
    + destruct Hpup as (Hg & _ & _ & Hinfo).
      destruct Hpup0 as (Hg0 & _ & _ & Hinfo0).
      repeat (split; [congruence|]).
      rewrite Hinfo, Hinfo0. apply map_eq. intros k.
      rewrite !lookup_insert. repeat case_decide; try reflexivity.
      transitivity (@None info_value);
        [|symmetry]; apply not_elem_of_dom; foreign_key.
  - exfalso. revert Hrun Hrun0. unfold detect_face.
    rewrite Hshape, Hpose.
    destruct (pupil_detection self) as [detect_pupil|]; [|discriminate].
    destruct (pupils self detect_pupil framebg face) as [[lx ly] [rx ry]].
    destruct (center_h_ratio lx _ _); [|discriminate].
    destruct (center_h_ratio rx _ _); discriminate.
Qed.

(** The record that processing a face from the locals on entry leaves:
    its three angles, and its two pupils when a locator is configured. *)
Lemma detect_face_record (frame0 : ndarray bgr) (i : nat) (face : Face)
    (st' : locals bgr) :
  detect_face draw self framebg (init_locals frame0) i face = Ok st' ->
  saved_info st' !! "pitch" = Angle <$> pitch st' /\
  saved_info st' !! "yaw" = Angle <$> yaw st' /\
  saved_info st' !! "roll" = Angle <$> roll st' /\
  match pupil_detection self with
  | Some detect_pupil =>
      let '((lx, ly), (rx, ry)) := pupils self detect_pupil framebg face in
      saved_info st' !! "l_eye" = Some (Point lx ly) /\
      saved_info st' !! "r_eye" = Some (Point rx ry)
  | None =>
      saved_info st' !! "l_eye" = None /\ saved_info st' !! "r_eye" = None
  end.
Proof.
  intros Hrun.
  destruct (pnp_solver self (shape (frame (init_locals frame0))) (image_points face))
    as [[[axes p] y] r] eqn:Hpose.
  destruct (detect_face_Ok draw self framebg _ st' i face axes p y r Hpose Hrun)
    as (-> & -> & -> & _ & _ & _ & Hpup).
  destruct (pupil_detection self) as [detect_pupil|].
  - destruct (pupils self detect_pupil framebg face) as [[lx ly] [rx ry]].
    destruct Hpup as (r_l & r_r & _ & _ & _ & _ & _ & ->).
    repeat split; reflexivity.
  - destruct Hpup as (_ & _ & _ & ->).
    repeat split; reflexivity.
Qed.

End LastFace.

(** C10.  When the provider reports the faces [pre ++ [last]], and so for
    every frame of more than one face, the [gaze_facing] that [detect]
    returns and the diagnostic record are those that processing [last]
    alone, from the locals on entry, computes; the face of maximal area
    only decides what is handed to the serial port and the crop of the
    returned frame. *)
Theorem detect_reports_the_last_face {bgr gray : Type}
    (cvtColor : ndarray bgr -> ndarray gray)
    (draw : GazeDetection gray -> locals bgr -> Face -> Z -> Z -> bgr)
    (self : GazeDetection gray) (frame0 : ndarray bgr) (return_info : bool)
    (pre : list Face) (last : Face) (res : detect_return bgr) :
  landmark_tracking self (cvtColor frame0) = pre ++ [last] ->
  detect cvtColor draw self frame0 return_info = Ok res ->
  (exists st_last : locals bgr,
      detect_face draw self (cvtColor frame0) (init_locals frame0)
        (length pre) last = Ok st_last /\
      gaze_facing st_last = Some (ret_gaze_facing res) /\
      ret_info res
        = (if return_info then Some (saved_info st_last) else None) /\
      saved_info st_last !! "pitch" = Angle <$> pitch st_last /\
      saved_info st_last !! "yaw" = Angle <$> yaw st_last /\
      saved_info st_last !! "roll" = Angle <$> roll st_last /\
      match pupil_detection self with
      | Some detect_pupil =>
          let '((lx, ly), (rx, ry)) :=
            pupils self detect_pupil (cvtColor frame0) last in
          saved_info st_last !! "l_eye" = Some (Point lx ly) /\
          saved_info st_last !! "r_eye" = Some (Point rx ry)
      | None =>
          saved_info st_last !! "l_eye" = None /\
          saved_info st_last !! "r_eye" = None
      end) /\
  (exists (dominant : Face) (painted : ndarray bgr),
      nth_error (pre ++ [last]) (fst (biggest_face (pre ++ [last]) 0 0 0))
        = Some dominant /\
      shape painted = shape frame0 /\
      (annotate_image self = false -> painted = frame0) /\
      serial_written res = steering self (ncols frame0) (BOX dominant) /\
      ret_frame res
        = if crop_frame self
          then let '(r0, r1, c0, c1) :=
                 crop_bounds (crop_frame_paddings self) (shape frame0)
                   (BOX dominant) in
               slice2 painted r0 r1 c0 c1
          else painted).
Proof.
  intros Hfaces. unfold detect. rewrite Hfaces.
  set (framebg := cvtColor frame0).
  destruct (detect_loop draw self framebg (init_locals frame0) 0 (pre ++ [last]))
    as [st|e] eqn:Hloop; [|discriminate].
  cbn [mbind result_bind].
  pose proof (detect_loop_Ok draw self framebg _ _ _ _ Hloop)
    as (Hshape & Hbig & Hpaint).
  cbn [init_locals frame biggest_face_index biggest_face_area] in Hshape, Hbig, Hpaint.
  rewrite detect_loop_app in Hloop.
  destruct (detect_loop draw self framebg (init_locals frame0) 0 pre)
    as [st_pre|e] eqn:Hpre; [|discriminate].
  cbn in Hloop.
  destruct (detect_face draw self framebg st_pre (length pre) last)
    as [st1|e] eqn:Hlast; [|discriminate].
  cbn in Hloop. injection Hloop as ->.
  pose proof (detect_loop_Ok draw self framebg _ _ _ _ Hpre) as (Hshape_pre & _).
  assert (Hkeys : dom (saved_info st_pre) ⊆ info_keys self).
  { apply (detect_loop_info_keys draw self framebg _ _ _ _ Hpre).
    cbn. rewrite dom_empty_L. apply empty_subseteq. }
  assert (Hkeys0 : dom (saved_info (init_locals frame0)) ⊆ info_keys self).
  { cbn. rewrite dom_empty_L. apply empty_subseteq. }
  destruct (detect_face_forgets draw self framebg st_pre st (init_locals frame0)
              (length pre) (length pre) last Hlast (eq_sym Hshape_pre) Hkeys Hkeys0)
    as (st_last & Hrun_last & _ & Hgaze & _ & _ & _ & Hinfo).
  unfold after_loop.
  assert (Hlen : (0 <? length (pre ++ [last]))%nat = true).
  { apply Nat.ltb_lt. rewrite length_app. cbn [length]. lia. }
  rewrite Hlen.
  destruct (index (pre ++ [last]) (biggest_face_index st)) as [dominant|e] eqn:Hidx;
    [|discriminate].
  cbn [mbind result_bind].
  destruct (gaze_facing st) as [g|] eqn:Hg; [|discriminate].
  cbn. intros H. injection H as <-. cbn.
  split.
  - exists st_last. split; [exact Hrun_last|]. split; [congruence|].
    split; [rewrite Hinfo; reflexivity|].
    exact (detect_face_record draw self framebg frame0 _ last st_last Hrun_last).
  - exists dominant, (frame st).
    assert (Hfst : fst (biggest_face (pre ++ [last]) 0 0 0) = biggest_face_index st)
      by (rewrite <- Hbig; reflexivity).
    rewrite Hfst. unfold index in Hidx.
    destruct (nth_error (pre ++ [last]) (biggest_face_index st)) as [d|] eqn:Hnth;
      [|discriminate].
    injection Hidx as ->.
    assert (Hcols : ncols (frame st) = ncols frame0)
      by (unfold shape in Hshape; congruence).
    rewrite Hcols, Hshape.
    repeat split; try assumption.
Qed.

(** C10 on the big frontal face followed by a small face that looks
    away: the face of maximal area is the first one, gaze-facing when it
    is alone, and [detect] answers for the second. *)
Lemma detect_reports_the_last_face_witness :
  exists res,
    detect Sample.cvtColor Sample.draw Sample.two_faces_object
      Sample.color_frame true = Ok res /\
    landmark_tracking Sample.two_faces_object
      (Sample.cvtColor Sample.color_frame)
      = [Sample.face_with 10 5 100 100 (100, 50, 80, 60)]
        ++ [Sample.face_with 40 5 100 100 (400, 50, 10, 10)] /\
    fst (biggest_face Sample.big_then_small 0 0 0) = 0%nat /\
    ret_gaze_facing <$>
      detect Sample.cvtColor Sample.draw Sample.big_face_object
        Sample.color_frame true = Ok true /\
    ret_gaze_facing res = false /\
    exists st_last : locals unit,
      detect_face Sample.draw Sample.two_faces_object
        (Sample.cvtColor Sample.color_frame) (init_locals Sample.color_frame)
        1 (Sample.face_with 40 5 100 100 (400, 50, 10, 10)) = Ok st_last /\
      gaze_facing st_last = Some (ret_gaze_facing res) /\
      ret_info res = Some (saved_info st_last) /\
      saved_info st_last !! "pitch" = Some (Angle 40) /\
      saved_info st_last !! "l_eye" = Some (Point 265 141).
Proof.
  destruct (detect Sample.cvtColor Sample.draw Sample.two_faces_object
              Sample.color_frame true) as [res|e] eqn:Hrun;
    [|vm_compute in Hrun; discriminate].
  exists res. split; [reflexivity|].
  split; [reflexivity|]. split; [reflexivity|]. split; [reflexivity|].
  split; [vm_compute in Hrun; injection Hrun as <-; reflexivity|].
  destruct (proj1 (detect_reports_the_last_face Sample.cvtColor Sample.draw
                     Sample.two_faces_object Sample.color_frame true
                     [Sample.face_with 10 5 100 100 (100, 50, 80, 60)]
                     (Sample.face_with 40 5 100 100 (400, 50, 10, 10))
                     res eq_refl Hrun))
    as (st_last & Hlast & Hgaze & Hinfo & Hpitch & _ & _ & Heyes).
  exists st_last. split; [exact Hlast|]. split; [exact Hgaze|].
  split; [exact Hinfo|].
  assert (Hp : pitch st_last = Some 40%Q)
    by (vm_compute in Hlast; injection Hlast as <-; reflexivity).
  rewrite Hp in Hpitch. split; [exact Hpitch|].
  exact (proj1 Heyes).
Defined.

(** ** The exceptions of [detect] *)

Section Exceptions.

Context {bgr gray : Type}.
Variable cvtColor : ndarray bgr -> ndarray gray.
Variable draw : GazeDetection gray -> locals bgr -> Face -> Z -> Z -> bgr.
Variable self : GazeDetection gray.

(** After the loop has processed a face, [gaze_facing] is bound. *)
Lemma detect_loop_binds_gaze (framebg : ndarray gray) (faces : list Face)
    (st st' : locals bgr) (i : nat) :
  detect_loop draw self framebg st i faces = Ok st' ->
  faces <> [] \/ is_Some (gaze_facing st) ->
  is_Some (gaze_facing st').
Proof.
  revert st i. induction faces as [|face faces IH]; intros st i; cbn.
  - intros H [Hne|Hsome]; [congruence|]. injection H as <-. exact Hsome.
  - destruct (detect_face draw self framebg st i face) as [st1|e] eqn:E; cbn;
      [|discriminate].
    intros Hrest _. apply (IH _ _ Hrest). right.
    destruct (pnp_solver self (shape (frame st)) (image_points face))
      as [[[axes p] y] r] eqn:Hpose.
    destruct (detect_face_Ok draw self framebg st st1 i face axes p y r Hpose E)
      as (_ & _ & _ & _ & _ & _ & Hpup).
    destruct (pupil_detection self) as [detect_pupil|].
    + destruct (pupils self detect_pupil framebg face) as [[lx ly] [rx ry]].
      destruct Hpup as (r_l & r_r & _ & _ & _ & _ & -> & _). eexists. reflexivity.
    + destruct Hpup as (-> & _). eexists. reflexivity.
Qed.

(** The index the selector answers is that of a face of the list. *)
Lemma biggest_face_in_range (faces : list Face) :
  faces <> [] ->
  is_Some (nth_error faces (fst (biggest_face faces 0 0 0))).
Proof.
  intros Hne.
  destruct (biggest_face_spec faces 0 0 0) as [[_ ->]|(k & f & Hk & -> & _)].
  - destruct faces as [|f0 rest]; [congruence|]. eexists. reflexivity.
  - cbn. rewrite Hk. eexists. reflexivity.
Qed.

(** [detect] raises nothing but the zero division of a ratio: the face
    it indexes exists and the local it returns is bound. *)
Lemma detect_raises (frame0 : ndarray bgr) (return_info : bool) (e : exn) :
  detect cvtColor draw self frame0 return_info = Raise e ->
  e = ZeroDivisionError.
Proof.
  unfold detect.
  set (framebg := cvtColor frame0). set (faces := landmark_tracking self framebg).
  destruct (detect_loop draw self framebg (init_locals frame0) 0 faces)
    as [st|e'] eqn:Hloop; cbn [mbind result_bind].
  - unfold after_loop. destruct faces as [|f0 rest] eqn:Hfaces; [discriminate|].
    cbn [length Nat.ltb Nat.leb].
    pose proof (detect_loop_Ok draw self framebg _ _ _ _ Hloop) as (_ & Hbig & _).
    cbn [init_locals biggest_face_index biggest_face_area] in Hbig.
    assert (Hne : f0 :: rest <> []) by discriminate.
    destruct (biggest_face_in_range (f0 :: rest) Hne) as [dominant Hdom].
    rewrite <- Hbig in Hdom. cbn [fst] in Hdom.
    unfold index. rewrite Hdom. cbn [mbind result_bind].
    destruct (detect_loop_binds_gaze framebg _ _ _ _ Hloop (or_introl Hne))
      as [g Hg].
    rewrite Hg. discriminate.
  - intros H. injection H as <-. exact (detect_loop_raises _ _ _ _ _ _ _ Hloop).
Qed.

(** Without a pupil locator [detect] always returns. *)
Lemma detect_returns_without_pupil (frame0 : ndarray bgr) (return_info : bool) :
  pupil_detection self = None ->
  is_Ok (detect cvtColor draw self frame0 return_info).
Proof.
  intros Hnone.
  destruct (detect cvtColor draw self frame0 return_info) as [res|e] eqn:Hrun;
    [exact I|].
  pose proof (detect_raises _ _ _ Hrun) as ->.
  revert Hrun. unfold detect.
  set (framebg := cvtColor frame0). set (faces := landmark_tracking self framebg).
  pose proof (detect_loop_no_pupil draw self framebg faces (init_locals frame0)
                0%nat Hnone) as Hok.
  destruct (detect_loop draw self framebg (init_locals frame0) 0 faces)
    as [st|e'] eqn:Hloop; [|destruct Hok].
  cbn [mbind result_bind]. unfold after_loop.
  destruct (0 <? length faces)%nat; [|discriminate].
  destruct (index faces (biggest_face_index st)) as [dominant|e'] eqn:Hidx.
  - cbn [mbind result_bind].
    destruct (gaze_facing st) as [g|]; cbn; discriminate.
  - unfold index in Hidx. destruct (nth_error faces _); [discriminate|].
    injection Hidx as <-. discriminate.
Qed.

End Exceptions.

(** * Further properties of [detect] *)

(** ** When [detect] returns *)

Section Returning.

Context {bgr gray : Type}.
Variable cvtColor : ndarray bgr -> ndarray gray.
Variable draw : GazeDetection gray -> locals bgr -> Face -> Z -> Z -> bgr.
Variable self : GazeDetection gray.

(** Once the loop has returned, so does [detect]. *)
Lemma detect_returns_after_loop (frame0 : ndarray bgr) (return_info : bool) :
  is_Ok (detect_loop draw self (cvtColor frame0) (init_locals frame0) 0
           (landmark_tracking self (cvtColor frame0))) ->
  is_Ok (detect cvtColor draw self frame0 return_info).
Proof.
  intros Hloop.
  destruct (detect cvtColor draw self frame0 return_info) as [res|e] eqn:Hrun;
    [exact I|].
  pose proof (detect_raises _ _ _ _ _ _ Hrun) as ->.
  revert Hrun. unfold detect.
  set (framebg := cvtColor frame0) in *.
  set (faces := landmark_tracking self framebg) in *.
  destruct (detect_loop draw self framebg (init_locals frame0) 0 faces)
    as [st|e'] eqn:Hl; [|destruct Hloop].
  cbn [mbind result_bind]. unfold after_loop.
  destruct (0 <? length faces)%nat; [|discriminate].
  destruct (index faces (biggest_face_index st)) as [dominant|e'] eqn:Hidx.
  - cbn [mbind result_bind].
    destruct (gaze_facing st) as [g|]; cbn; discriminate.
  - unfold index in Hidx. destruct (nth_error faces _); [discriminate|].
    injection Hidx as <-. discriminate.
Qed.

(** An iteration returns for a face whose eyes are open. *)
Lemma detect_face_eyes_open (framebg : ndarray gray) (st : locals bgr)
    (i : nat) (face : Face) :
  eyes_open face -> is_Ok (detect_face draw self framebg st i face).
Proof.
  intros [Hl Hr]. unfold detect_face.
  destruct (pnp_solver self _ _) as [[[axes p] y] r].
  destruct (pupil_detection self) as [detect_pupil|]; [|exact I].
  destruct (pupils self detect_pupil framebg face) as [[lx ly] [rx ry]].
  unfold center_h_ratio, py_truediv.
  destruct (X (EYE_L_OUT face) - X (EYE_L_IN face) =? 0) eqn:El;
    [apply Z.eqb_eq in El; lia|].
  destruct (X (EYE_R_IN face) - X (EYE_R_OUT face) =? 0) eqn:Er;
    [apply Z.eqb_eq in Er; lia|].
  exact I.
Qed.

Lemma detect_loop_eyes_open (framebg : ndarray gray) (faces : list Face)
    (st : locals bgr) (i : nat) :
  Forall eyes_open faces ->
  is_Ok (detect_loop draw self framebg st i faces).
Proof.
  intros Hall. revert st i.
  induction Hall as [|face faces Hface _ IH]; intros st i; cbn; [exact I|].
  pose proof (detect_face_eyes_open framebg st i face Hface) as Hok.
  destruct (detect_face draw self framebg st i face) as [st'|e]; cbn.
  - apply IH.
  - destruct Hok.
Qed.

(** X1.  [detect] returns exactly when no pupil locator is configured or every
    face reported has, for both eyes, an inner and an outer corner of
    different abscissas; otherwise it raises the zero division. *)
Theorem detect_returns_iff_eyes_open (frame0 : ndarray bgr)
    (return_info : bool) :
  (is_Ok (detect cvtColor draw self frame0 return_info) <->
     pupil_detection self = None \/
     Forall eyes_open (landmark_tracking self (cvtColor frame0))) /\
  (~ is_Ok (detect cvtColor draw self frame0 return_info) ->
     detect cvtColor draw self frame0 return_info = Raise ZeroDivisionError).
Proof.
  split.
  - split.
    + intros Hok.
      destruct (pupil_detection self) as [detect_pupil|] eqn:Hloc;
        [right|left; reflexivity].
      apply List.Forall_forall. intros face Hin.
      destruct (Z.eq_dec (X (EYE_L_IN face)) (X (EYE_L_OUT face))) as [El|El];
        [|destruct (Z.eq_dec (X (EYE_R_IN face)) (X (EYE_R_OUT face))) as [Er|Er]];
        [exfalso|exfalso|split; assumption].
      * revert Hok. unfold detect.
        destruct (in_split _ _ Hin) as (pre & post & ->).
        rewrite detect_loop_app.
        destruct (detect_loop draw self (cvtColor frame0) (init_locals frame0) 0 pre)
          as [st1|e]; cbn; [|exact (fun H => H)].
        rewrite (detect_face_degenerate draw self (cvtColor frame0) detect_pupil
                   st1 (length pre) face Hloc (or_introl El)).
        exact (fun H => H).
      * revert Hok. unfold detect.
        destruct (in_split _ _ Hin) as (pre & post & ->).
        rewrite detect_loop_app.
        destruct (detect_loop draw self (cvtColor frame0) (init_locals frame0) 0 pre)
          as [st1|e]; cbn; [|exact (fun H => H)].
        rewrite (detect_face_degenerate draw self (cvtColor frame0) detect_pupil
                   st1 (length pre) face Hloc (or_intror Er)).
        exact (fun H => H).
    + intros [Hnone|Hall]; apply detect_returns_after_loop.
      * apply detect_loop_no_pupil. exact Hnone.
      * apply detect_loop_eyes_open. exact Hall.
  - intros Hnot.
    destruct (detect cvtColor draw self frame0 return_info) as [res|e] eqn:Hrun.
    + exfalso. apply Hnot. exact I.
    + rewrite (detect_raises _ _ _ _ _ _ Hrun). reflexivity.
Qed.

(** X2.  Without a pupil locator, [detect] returns, and the [gaze_facing] it
    returns for the faces [pre ++ [last]] is the face decision of [last]:
    true exactly when |pitch| and |yaw| of [last] are below the
    sensibility. *)
Theorem gaze_is_face_facing_without_locator (frame0 : ndarray bgr)
    (return_info : bool) (pre : list Face) (last : Face)
    (axes : list (Q * Q)) (p y r : Q) :
  pupil_detection self = None ->
  landmark_tracking self (cvtColor frame0) = pre ++ [last] ->
  pnp_solver self (shape frame0) (image_points last) = (axes, p, y, r) ->
  exists res,
    detect cvtColor draw self frame0 return_info = Ok res /\
    (ret_gaze_facing res = true <->
       (Qabs p < inject_Z (face_facing_sensibility self))%Q /\
       (Qabs y < inject_Z (face_facing_sensibility self))%Q).
Proof.
  intros Hnone Hfaces Hpose.
  pose proof (detect_returns_without_pupil cvtColor draw self frame0 return_info
                Hnone) as Hok.
  destruct (detect cvtColor draw self frame0 return_info) as [res|e] eqn:Hrun;
    [|destruct Hok].
  exists res. split; [reflexivity|].
  revert Hrun. unfold detect. rewrite Hfaces.
  set (framebg := cvtColor frame0).
  rewrite detect_loop_app.
  destruct (detect_loop draw self framebg (init_locals frame0) 0 pre)
    as [st_pre|e] eqn:Hpre; [|discriminate].
  cbn [mbind result_bind detect_loop].
  destruct (detect_face draw self framebg st_pre (0 + length pre) last)
    as [st|e] eqn:Hlast; [|discriminate].
  cbn [mbind result_bind mret result_ret].
  pose proof (detect_loop_Ok draw self framebg _ _ _ _ Hpre) as (Hshape & _).
  cbn [init_locals frame] in Hshape. rewrite <- Hshape in Hpose.
  destruct (detect_face_Ok draw self framebg st_pre st _ last axes p y r Hpose Hlast)
    as (_ & _ & _ & _ & _ & _ & Hpup).
  rewrite Hnone in Hpup. destruct Hpup as (Hg & _).
  unfold after_loop.
  destruct (0 <? length (pre ++ [last]))%nat eqn:Hlen.
  - destruct (index (pre ++ [last]) (biggest_face_index st)) as [dominant|e];
      [|discriminate].
    cbn [mbind result_bind]. rewrite Hg. cbn. intros H. injection H as <-. cbn.
    apply face_facing_of_true.
  - apply Nat.ltb_ge in Hlen. rewrite length_app in Hlen. cbn in Hlen. lia.
Qed.

End Returning.

(** ** Edges of the classifier *)

Section ClassifierEdges.

Context {bgr gray : Type}.
Variable draw : GazeDetection gray -> locals bgr -> Face -> Z -> Z -> bgr.
Variable self : GazeDetection gray.
Variable framebg : ndarray gray.

(** X3.  A face that is not face-facing and whose yaw is exactly 0 (its pitch
    is then beyond the sensibility) is never gaze-facing, wherever its
    pupils are: neither [elif] of lines 210-213 applies. *)
Theorem gaze_false_when_yaw_zero_and_not_facing
    (detect_pupil : ndarray gray -> Z * Z)
    (st st' : locals bgr) (i : nat) (face : Face) (y : Q) :
  pupil_detection self = Some detect_pupil ->
  detect_face draw self framebg st i face = Ok st' ->
  yaw st' = Some y ->
  (y == 0)%Q ->
  face_facing st' = Some false ->
  gaze_facing st' = Some false.
Proof.
  intros Hloc Hrun Hy Hzero Hff.
  destruct (pnp_solver self (shape (frame st)) (image_points face))
    as [[[axes p] y'] r] eqn:Hpose.
  destruct (detect_face_Ok draw self framebg st st' i face axes p y' r Hpose Hrun)
    as (_ & Hy' & _ & _ & _ & _ & Hpup).
  rewrite Hloc in Hpup.
  destruct (pupils self detect_pupil framebg face) as [[lx ly] [rx ry]].
  destruct Hpup as (r_l & r_r & _ & _ & Hl & Hr & _).
  rewrite (detect_face_gaze draw self framebg detect_pupil st st' i face
             r_l r_r y false Hloc Hrun Hl Hr Hy Hff).
  unfold facing_computation.
  assert (E1 : Qltb y 0 = false) by (apply Qltb_ge; rewrite Hzero; discriminate).
  assert (E2 : Qltb 0 y = false) by (apply Qltb_ge; rewrite Hzero; discriminate).
  rewrite E1, E2. reflexivity.
Qed.

End ClassifierEdges.

(** X4.  The face decision grows with the sensibility: a pose that is
    face-facing for an object is face-facing for any object of greater
    or equal sensibility; and for a sensibility of 0 or less no pose is
    face-facing. *)
Theorem face_facing_grows_with_sensibility {gray : Type}
    (self self' : GazeDetection gray) (p y : Q) :
  (face_facing_sensibility self <= face_facing_sensibility self' ->
   face_facing_of self p y = true -> face_facing_of self' p y = true) /\
  (face_facing_sensibility self <= 0 -> face_facing_of self p y = false).
Proof.
  split.
  - intros Hle Hff. apply face_facing_of_true in Hff. destruct Hff as [Hp Hy].
    apply face_facing_of_true.
    assert (HT : (inject_Z (face_facing_sensibility self)
                  <= inject_Z (face_facing_sensibility self'))%Q)
      by (rewrite <- Zle_Qle; exact Hle).
    split; eapply Qlt_le_trans; eassumption.
  - intros Hle. apply face_facing_of_false. left.
    apply Qle_trans with 0%Q; [|apply Qabs_nonneg].
    change 0%Q with (inject_Z 0). rewrite <- Zle_Qle. exact Hle.
Qed.

(** ** Eye crops, pupils and ratios *)

Lemma slice_index_inside (n i : Z) : 0 <= i <= n -> slice_index n i = i.
Proof.
  intros [H0 Hn]. unfold slice_index.
  destruct (i <? 0) eqn:E; [apply Z.ltb_lt in E; lia|]. lia.
Qed.

Lemma slice_index_bounds (n i : Z) : 0 <= n -> 0 <= slice_index n i <= n.
Proof.
  intros Hn. unfold slice_index. destruct (i <? 0) eqn:E.
  - apply Z.ltb_lt in E. lia.
  - apply Z.ltb_ge in E. lia.
Qed.

(** The shape of a slice whose bounds are in order inside the array, and
    of a slice whose bounds are reversed. *)
Lemma slice2_shape_inside {A} (m : ndarray A) (r0 r1 c0 c1 : Z) :
  0 <= r0 <= nrows m -> 0 <= r1 <= nrows m ->
  0 <= c0 <= ncols m -> 0 <= c1 <= ncols m ->
  shape (slice2 m r0 r1 c0 c1) = (Z.max (r1 - r0) 0, Z.max (c1 - c0) 0).
Proof.
  intros Hr0 Hr1 Hc0 Hc1. unfold slice2, slice_range, shape. cbn.
  rewrite !slice_index_inside by assumption. reflexivity.
Qed.

Lemma slice2_cell_inside {A} (m : ndarray A) (r0 r1 c0 c1 i j : Z) :
  0 <= r0 <= nrows m -> 0 <= c0 <= ncols m ->
  cell (slice2 m r0 r1 c0 c1) i j = cell m (r0 + i) (c0 + j).
Proof.
  intros Hr0 Hc0. unfold slice2, slice_range. cbn.
  rewrite !slice_index_inside by assumption. reflexivity.
Qed.

Section Eyes.

Context {gray : Type}.
Variable self : GazeDetection gray.
Variable framebg : ndarray gray.

(** X5.  The size of the image handed to the pupil locator for the left eye,
    when the padded eye box lies inside the frame: its rows span the lids
    and its columns the corners, each widened by the padding; it has no
    column when the outer corner, padding included, is not right of the
    inner one. *)
Theorem left_eye_crop_shape (face : Face) (pad_h pad_v : Z) :
  eye_frame_padding self = (pad_h, pad_v) ->
  0 <= Y (EYE_L_TOP face) - pad_v <= nrows framebg ->
  0 <= Y (EYE_L_BOTTOM face) + pad_v <= nrows framebg ->
  0 <= X (EYE_L_IN face) - pad_h <= ncols framebg ->
  0 <= X (EYE_L_OUT face) + pad_h <= ncols framebg ->
  let eye_l := fst (eyes self framebg face) in
  (Y (EYE_L_TOP face) - pad_v <= Y (EYE_L_BOTTOM face) + pad_v ->
   X (EYE_L_IN face) - pad_h <= X (EYE_L_OUT face) + pad_h ->
   shape eye_l =
     (Y (EYE_L_BOTTOM face) - Y (EYE_L_TOP face) + 2 * pad_v,
      X (EYE_L_OUT face) - X (EYE_L_IN face) + 2 * pad_h)) /\
  (X (EYE_L_OUT face) + pad_h <= X (EYE_L_IN face) - pad_h ->
   ncols eye_l = 0).
Proof.
  intros Hpad Ht Hb Hi Ho eye_l. subst eye_l. unfold eyes. rewrite Hpad. cbn [fst].
  pose proof (slice2_shape_inside framebg _ _ _ _ Ht Hb Hi Ho) as Hs.
  split.
  - intros Hrows Hcols. rewrite Hs. f_equal; lia.
  - intros Hrev. pose proof (f_equal snd Hs) as Hc. cbn [snd shape] in Hc.
    rewrite Hc. lia.
Qed.

(** X6.  The pupil that [detect] reports in frame coordinates is the pixel the
    locator chose in the eye crop: when the top-left corner of each
    padded eye box lies inside the frame, the frame cell at the reported
    point is the crop cell at the locator's answer. *)
Theorem pupils_point_at_located_pixels
    (detect_pupil : ndarray gray -> Z * Z) (face : Face) (pad_h pad_v : Z) :
  eye_frame_padding self = (pad_h, pad_v) ->
  0 <= Y (EYE_L_TOP face) - pad_v <= nrows framebg ->
  0 <= X (EYE_L_IN face) - pad_h <= ncols framebg ->
  0 <= Y (EYE_R_TOP face) - pad_v <= nrows framebg ->
  0 <= X (EYE_R_OUT face) - pad_h <= ncols framebg ->
  let '(eye_l, eye_r) := eyes self framebg face in
  let '((pupil_l_x, pupil_l_y), (pupil_r_x, pupil_r_y)) :=
    pupils self detect_pupil framebg face in
  cell framebg pupil_l_y pupil_l_x
    = cell eye_l (snd (detect_pupil eye_l)) (fst (detect_pupil eye_l)) /\
  cell framebg pupil_r_y pupil_r_x
    = cell eye_r (snd (detect_pupil eye_r)) (fst (detect_pupil eye_r)).
Proof.
  intros Hpad Hlt Hli Hrt Hro. unfold pupils, eyes. rewrite Hpad.
  destruct (detect_pupil (slice2 framebg _ _ (X (EYE_L_IN face) - pad_h) _))
    as [lx ly] eqn:El.
  destruct (detect_pupil (slice2 framebg _ _ (X (EYE_R_OUT face) - pad_h) _))
    as [rx ry] eqn:Er.
  cbn [fst snd].
  rewrite !slice2_cell_inside by assumption. split; reflexivity.
Qed.

End Eyes.

(** *** Rounding *)

Lemma round_half_even_cases (x : Q) :
  let f := Qfloor x in
  (round_half_even x = f /\ (x - inject_Z f <= 1 # 2)%Q) \/
  (round_half_even x = f + 1 /\ (1 # 2 <= x - inject_Z f)%Q).
Proof.
  intros f. unfold round_half_even. fold f.
  destruct (Qltb (x - inject_Z f) (1 # 2)) eqn:E1.
  - left. split; [reflexivity|]. apply Qltb_lt in E1. apply Qlt_le_weak. exact E1.
  - apply Qltb_ge in E1.
    destruct (Qltb (1 # 2) (x - inject_Z f)) eqn:E2.
    + right. split; [reflexivity|exact E1].
    + apply Qltb_ge in E2. destruct (Z.even f).
      * left. split; [reflexivity|exact E2].
      * right. split; [reflexivity|exact E1].
Qed.

Lemma floor_bounds (x : Q) :
  (inject_Z (Qfloor x) <= x)%Q /\ (x < inject_Z (Qfloor x) + 1)%Q.
Proof.
  split; [apply Qfloor_le|].
  pose proof (Qlt_floor x) as H. rewrite inject_Z_plus in H. exact H.
Qed.

(** Rounding moves a number by at most one half and never across an
    integer. *)
Lemma round_half_even_close (x : Q) :
  (Qabs (inject_Z (round_half_even x) - x) <= 1 # 2)%Q.
Proof.
  destruct (floor_bounds x) as [Hlo Hhi].
  apply Qabs_Qle_condition.
  destruct (round_half_even_cases x) as [[-> Hd]|[-> Hd]].
  - split; lra.
  - rewrite inject_Z_plus. change (inject_Z 1) with 1%Q. split; lra.
Qed.

Lemma round_half_even_between (x : Q) (lo hi : Z) :
  (inject_Z lo <= x)%Q -> (x <= inject_Z hi)%Q ->
  lo <= round_half_even x <= hi.
Proof.
  intros Hlo Hhi.
  destruct (floor_bounds x) as [Hf1 Hf2].
  assert (Hlof : lo <= Qfloor x).
  { rewrite <- (Qfloor_Z lo). apply Qfloor_resp_le. exact Hlo. }
  destruct (round_half_even_cases x) as [[-> Hd]|[-> Hd]].
  - split; [exact Hlof|]. rewrite Zle_Qle. lra.
  - split; [lia|].
    assert (Hlt : (inject_Z (Qfloor x) < inject_Z hi)%Q) by lra.
    rewrite <- Zlt_Qlt in Hlt. lia.
Qed.

Lemma py_round2_spec (x : Q) :
  (py_round2 x == inject_Z (round_half_even (x * inject_Z 100)) * (1 # 100))%Q.
Proof. unfold py_round2. apply Qdiv_100. Qed.

(** X7.  Lines 198-202.  For an eye whose corner [a] is left of its corner
    [b] and a pupil between them, the ratio is computed, lies between
    -0.5 and 0.5 as the comment of the code says, is a whole number of
    hundredths and is within 0.005 of (pupil_x - a)/(b - a) - 0.5; a
    pupil on the corner [a] gives -0.5 and on the corner [b] gives
    0.5. *)
Theorem center_h_ratio_in_range (pupil_x a b : Z) :
  a < b ->
  a <= pupil_x <= b ->
  exists r : Q,
    center_h_ratio pupil_x a b = Ok r /\
    (- (1 # 2) <= r <= 1 # 2)%Q /\
    (exists k : Z, (r == inject_Z k * (1 # 100))%Q) /\
    (Qabs (r - (inject_Z (pupil_x - a) / inject_Z (b - a) - (1 # 2)))
       <= 1 # 200)%Q /\
    (pupil_x = a -> (r == - (1 # 2))%Q) /\
    (pupil_x = b -> (r == 1 # 2)%Q).
Proof.
  intros Hab Hp. unfold center_h_ratio, py_truediv.
  destruct (b - a =? 0) eqn:E; [apply Z.eqb_eq in E; lia|].
  cbn [mbind result_bind mret result_ret]. eexists. split; [reflexivity|].
  set (q := (inject_Z (pupil_x - a) / inject_Z (b - a))%Q).
  assert (Hden : (0 < inject_Z (b - a))%Q)
    by (change 0%Q with (inject_Z 0); rewrite <- Zlt_Qlt; lia).
  assert (Hq0 : (0 <= q)%Q).
  { apply Qle_shift_div_l; [exact Hden|]. rewrite Qmult_0_l.
    change 0%Q with (inject_Z 0). rewrite <- Zle_Qle. lia. }
  assert (Hq1 : (q <= 1)%Q).
  { apply Qle_shift_div_r; [exact Hden|]. rewrite Qmult_1_l.
    rewrite <- Zle_Qle. lia. }
  set (x := (q - (1 # 2))%Q).
  pose proof (py_round2_spec x) as Hspec.
  change (inject_Z 100) with 100%Q in Hspec.
  assert (Hrange : -50 <= round_half_even (x * 100) <= 50).
  { apply round_half_even_between.
    - change (inject_Z (-50)) with (-50)%Q. subst x. lra.
    - change (inject_Z 50) with 50%Q. subst x. lra. }
  pose proof (round_half_even_close (x * 100)) as Hclose.
  apply Qabs_Qle_condition in Hclose.
  destruct Hrange as [HloZ HhiZ].
  pose proof HloZ as Hlo. pose proof HhiZ as Hhi. rewrite Zle_Qle in Hlo, Hhi.
  change (inject_Z (-50)) with (-50)%Q in Hlo.
  change (inject_Z 50) with 50%Q in Hhi.
  split; [rewrite Hspec; split; lra|].
  split; [eexists; exact Hspec|].
  split; [apply Qabs_Qle_condition; rewrite Hspec; split; lra|].
  split.
  - intros ->. rewrite Hspec.
    assert (Hx : (x == - (1 # 2))%Q).
    { subst x q. rewrite Z.sub_diag. unfold Qdiv. rewrite Qmult_0_l. reflexivity. }
    assert (Hlt : (inject_Z (round_half_even (x * 100)) < inject_Z (-49))%Q)
      by (change (inject_Z (-49)) with (-49)%Q; lra).
    rewrite <- Zlt_Qlt in Hlt.
    assert (Hk : round_half_even (x * 100) = -50) by lia.
    rewrite Hk. reflexivity.
  - intros ->. rewrite Hspec.
    assert (Hx : (x == 1 # 2)%Q).
    { assert (Hq : (q == 1)%Q).
      { subst q. field. apply Qnot_eq_sym, Qlt_not_eq, Hden. }
      subst x. rewrite Hq. reflexivity. }
    assert (Hlt : (inject_Z 49 < inject_Z (round_half_even (x * 100)))%Q)
      by (change (inject_Z 49) with 49%Q; lra).
    rewrite <- Zlt_Qlt in Hlt.
    assert (Hk : round_half_even (x * 100) = 50) by lia.
    rewrite Hk. reflexivity.
Qed.

(** ** The crop and the serial port *)

(** [int(x)] of a non-negative float is non-negative and at most [x]; of
    a non-positive float it is non-positive; and it is at least every
    integer below [x]. *)
Lemma py_int_nonneg (x : Q) :
  (0 <= x)%Q -> 0 <= py_int x /\ (inject_Z (py_int x) <= x)%Q.
Proof.
  destruct x as [n d]. unfold py_int, Qle, inject_Z. cbn.
  intros Hn. assert (0 <= n) by lia. split.
  - apply Z.quot_pos; lia.
  - rewrite Z.mul_1_r. pose proof (Z.mul_quot_le n (Z.pos d)). lia.
Qed.

Lemma py_int_nonpos (x : Q) : (x <= 0)%Q -> py_int x <= 0.
Proof.
  destruct x as [n d]. unfold py_int, Qle. cbn.
  intros Hn. assert (Hle : n <= 0) by lia.
  assert (H : 0 <= Z.quot (- n) (Z.pos d)) by (apply Z.quot_pos; lia).
  rewrite Z.quot_opp_l in H by lia. lia.
Qed.

Lemma py_int_lower (x : Q) (k : Z) :
  (0 <= x)%Q -> (inject_Z k <= x)%Q -> k <= py_int x.
Proof.
  intros H0 Hk. destruct (py_int_nonneg x H0) as [Hpos _].
  destruct (Z.le_gt_cases k 0) as [Hk0|Hk0]; [lia|].
  destruct x as [n d]. unfold py_int, Qle, inject_Z in *. cbn in *.
  apply Z.quot_le_lower_bound; lia.
Qed.

(** X8.  Lines 307-308.  For paddings that are not negative and a box of
    non-negative corner and size, the crop bounds are ordered inside the
    frame and cover the part of the box that lies in the frame; the crop
    has a row (a column) as soon as the box has one inside the frame. *)
Theorem crop_covers_the_box (pad_top pad_right pad_bottom pad_left : Q)
    (frame_h frame_w fx fy fw fh : Z) :
  (0 <= pad_top)%Q -> (0 <= pad_right)%Q ->
  (0 <= pad_bottom)%Q -> (0 <= pad_left)%Q ->
  0 <= fx -> 0 <= fy -> 0 <= fw -> 0 <= fh ->
  0 <= frame_h -> 0 <= frame_w ->
  let '(r0, r1, c0, c1) :=
    crop_bounds (pad_top, pad_right, pad_bottom, pad_left)
      (frame_h, frame_w) (fx, fy, fw, fh) in
  (0 <= r0 <= fy /\ Z.min (fy + fh) frame_h <= r1 <= frame_h) /\
  (0 <= c0 <= fx /\ Z.min (fx + fw) frame_w <= c1 <= frame_w) /\
  (fy < frame_h -> 0 < fh -> r0 < r1) /\
  (fx < frame_w -> 0 < fw -> c0 < c1).
Proof.
  intros Ht Hr Hb Hl Hfx Hfy Hfw Hfh HH HW. cbn [crop_bounds].
  assert (Hstart : forall (f s : Z) (pad : Q),
             0 <= f -> 0 <= s -> (0 <= pad)%Q ->
             py_int (inject_Z f - inject_Z s * pad) <= f).
  { intros f s pad Hf Hs Hpad.
    assert (Hprod : (0 <= inject_Z s * pad)%Q).
    { apply Qmult_le_0_compat; [|exact Hpad].
      change 0%Q with (inject_Z 0). rewrite <- Zle_Qle. exact Hs. }
    destruct (Qlt_le_dec (inject_Z f - inject_Z s * pad) 0) as [Hneg|Hpos].
    - pose proof (py_int_nonpos _ (Qlt_le_weak _ _ Hneg)). lia.
    - destruct (py_int_nonneg _ Hpos) as [_ Hle].
      rewrite Zle_Qle. lra. }
  assert (Hstop : forall (s : Z) (pad : Q),
             0 <= s -> (0 <= pad)%Q -> s <= py_int (inject_Z s * (1 + pad))).
  { intros s pad Hs Hpad.
    assert (Hs' : (0 <= inject_Z s)%Q)
      by (change 0%Q with (inject_Z 0); rewrite <- Zle_Qle; exact Hs).
    assert (Hprod : (0 <= inject_Z s * pad)%Q)
      by (apply Qmult_le_0_compat; assumption).
    apply py_int_lower; lra. }
  pose proof (Hstart fy fh pad_top Hfy Hfh Ht).
  pose proof (Hstart fx fw pad_left Hfx Hfw Hl).
  pose proof (Hstop fh pad_bottom Hfh Hb).
  pose proof (Hstop fw pad_right Hfw Hr).
  repeat split; lia.
Qed.

Lemma slice2_shape_bounds {A} (m : ndarray A) (r0 r1 c0 c1 : Z) :
  0 <= nrows m -> 0 <= ncols m ->
  0 <= nrows (slice2 m r0 r1 c0 c1) <= nrows m /\
  0 <= ncols (slice2 m r0 r1 c0 c1) <= ncols m.
Proof.
  intros Hr Hc. unfold slice2, slice_range. cbn.
  pose proof (slice_index_bounds (nrows m) r0 Hr).
  pose proof (slice_index_bounds (nrows m) r1 Hr).
  pose proof (slice_index_bounds (ncols m) c0 Hc).
  pose proof (slice_index_bounds (ncols m) c1 Hc).
  lia.
Qed.

(** What is handed to the serial port for a box: nothing, or the step,
    or its opposite, and then the output is switched on and both serial
    attributes are set. *)
Lemma steering_cases {gray} (self : GazeDetection gray) (frame_w : Z)
    (box : Z * Z * Z * Z) :
  steering self frame_w box = [] \/
  exists (S : Q) (port : string),
    print_on_serial self = true /\
    serial_port self = Some port /\
    serial_writing_step self = Some S /\
    (steering self frame_w box = [S] \/ steering self frame_w box = [(- S)%Q]).
Proof.
  unfold steering, serial_write. destruct box as [[[fx fy] fw] fh].
  destruct (print_on_serial self); [|left; reflexivity].
  destruct (serial_port self) as [port|];
    [|left; repeat match goal with |- context [if ?c then _ else _] => destruct c end;
      reflexivity].
  destruct (serial_writing_step self) as [S|];
    [|left; repeat match goal with |- context [if ?c then _ else _] => destruct c end;
      reflexivity].
  cbn.
  destruct (Qltb _ _); [right; exists S, port; auto|].
  destruct (Qltb _ _); [right; exists S, port; auto|left; reflexivity].
Qed.

Section Returned.

Context {bgr gray : Type}.
Variable cvtColor : ndarray bgr -> ndarray gray.
Variable draw : GazeDetection gray -> locals bgr -> Face -> Z -> Z -> bgr.
Variable self : GazeDetection gray.

(** What [detect] returns, from the locals the loop leaves. *)
Lemma detect_Ok_inv (frame0 : ndarray bgr) (return_info : bool)
    (res : detect_return bgr) :
  detect cvtColor draw self frame0 return_info = Ok res ->
  exists st : locals bgr,
    detect_loop draw self (cvtColor frame0) (init_locals frame0) 0
      (landmark_tracking self (cvtColor frame0)) = Ok st /\
    ret_info res = (if return_info then Some (saved_info st) else None) /\
    ((landmark_tracking self (cvtColor frame0) = [] /\
      ret_frame res = frame0 /\ ret_gaze_facing res = false /\
      serial_written res = []) \/
     (exists dominant : Face,
         landmark_tracking self (cvtColor frame0) <> [] /\
         nth_error (landmark_tracking self (cvtColor frame0))
           (biggest_face_index st) = Some dominant /\
         gaze_facing st = Some (ret_gaze_facing res) /\
         serial_written res = steering self (ncols (frame st)) (BOX dominant) /\
         ret_frame res =
           if crop_frame self
           then let '(r0, r1, c0, c1) :=
                  crop_bounds (crop_frame_paddings self) (shape (frame st))
                    (BOX dominant) in
                slice2 (frame st) r0 r1 c0 c1
           else frame st)).
Proof.
  unfold detect.
  set (framebg := cvtColor frame0). set (faces := landmark_tracking self framebg).
  destruct (detect_loop draw self framebg (init_locals frame0) 0 faces)
    as [st|e] eqn:Hloop; [|discriminate].
  cbn [mbind result_bind]. unfold after_loop.
  destruct faces as [|f0 rest] eqn:Hfaces.
  - cbn. intros H. injection H as <-. cbn. cbn in Hloop. injection Hloop as <-.
    exists (init_locals frame0). repeat split. left. repeat split.
  - cbn [length Nat.ltb Nat.leb].
    destruct (index (f0 :: rest) (biggest_face_index st)) as [dominant|e] eqn:Hidx;
      [|discriminate].
    cbn [mbind result_bind].
    destruct (gaze_facing st) as [g|] eqn:Hg; [|discriminate].
    cbn. intros H. injection H as <-. cbn.
    exists st. repeat split. right. exists dominant.
    unfold index in Hidx.
    destruct (nth_error (f0 :: rest) (biggest_face_index st)) as [d|];
      [|discriminate].
    injection Hidx as ->. repeat split; try reflexivity; try assumption.
    discriminate.
Qed.

(** X9.  The frame [detect] returns is never larger than the frame it was
    given, and has the same shape when [crop_frame] is off. *)
Theorem returned_frame_fits_in_the_frame (frame0 : ndarray bgr)
    (return_info : bool) (res : detect_return bgr) :
  detect cvtColor draw self frame0 return_info = Ok res ->
  0 <= nrows frame0 -> 0 <= ncols frame0 ->
  0 <= nrows (ret_frame res) <= nrows frame0 /\
  0 <= ncols (ret_frame res) <= ncols frame0 /\
  (crop_frame self = false -> shape (ret_frame res) = shape frame0).
Proof.
  intros Hrun Hr Hc.
  destruct (detect_Ok_inv frame0 return_info res Hrun)
    as (st & Hloop & _ & [(_ & -> & _)|(dominant & _ & _ & _ & _ & ->)]).
  - repeat split; lia.
  - pose proof (detect_loop_Ok draw self _ _ _ _ _ Hloop) as (Hshape & _).
    cbn [init_locals frame] in Hshape.
    assert (Hrows : nrows (frame st) = nrows frame0)
      by (unfold shape in Hshape; congruence).
    assert (Hcols : ncols (frame st) = ncols frame0)
      by (unfold shape in Hshape; congruence).
    destruct (crop_frame self).
    + destruct (crop_bounds _ _ _) as [[[r0 r1] c0] c1].
      pose proof (slice2_shape_bounds (frame st) r0 r1 c0 c1) as Hb.
      rewrite Hrows, Hcols in Hb. destruct (Hb Hr Hc) as [Hb1 Hb2].
      repeat split; try lia; try discriminate.
    + rewrite Hrows, Hcols. repeat split; try lia. intros _. exact Hshape.
Qed.

(** X10.  With [crop_frame] and [annotate_image] both off, [detect] returns
    the very frame it was given, whatever the faces. *)
Theorem frame_untouched_without_crop_and_annotation (frame0 : ndarray bgr)
    (return_info : bool) (res : detect_return bgr) :
  crop_frame self = false ->
  annotate_image self = false ->
  detect cvtColor draw self frame0 return_info = Ok res ->
  ret_frame res = frame0.
Proof.
  intros Hcrop Hann Hrun.
  destruct (detect_Ok_inv frame0 return_info res Hrun)
    as (st & Hloop & _ & [(_ & -> & _)|(dominant & _ & _ & _ & _ & ->)]).
  - reflexivity.
  - pose proof (detect_loop_Ok draw self _ _ _ _ _ Hloop) as (_ & _ & Hsame).
    rewrite Hcrop. exact (Hsame Hann).
Qed.

(** What [detect] hands to the serial port. *)
Lemma detect_written_cases (frame0 : ndarray bgr)
    (return_info : bool) (res : detect_return bgr) :
  detect cvtColor draw self frame0 return_info = Ok res ->
  serial_written res = [] \/
  exists (S : Q) (port : string),
    print_on_serial self = true /\
    serial_port self = Some port /\
    serial_writing_step self = Some S /\
    (serial_written res = [S] \/ serial_written res = [(- S)%Q]).
Proof.
  intros Hrun.
  destruct (detect_Ok_inv frame0 return_info res Hrun)
    as (st & _ & _ & [(_ & _ & _ & ->)|(dominant & _ & _ & _ & -> & _)]).
  - left. reflexivity.
  - apply steering_cases.
Qed.

(** X11.  [detect] hands at most one value to the serial port per frame, the
    step or its opposite, and only when [print_on_serial] is on and
    [__init__] has set both serial attributes. *)
Theorem at_most_one_step_is_written (frame0 : ndarray bgr)
    (return_info : bool) (res : detect_return bgr) :
  detect cvtColor draw self frame0 return_info = Ok res ->
  (length (serial_written res) <= 1)%nat /\
  (forall v : Q, In v (serial_written res) ->
     print_on_serial self = true /\
     is_Some (serial_port self) /\
     (serial_writing_step self = Some v \/
      exists S : Q, serial_writing_step self = Some S /\ v = (- S)%Q)).
Proof.
  intros Hrun.
  destruct (detect_written_cases frame0 return_info res Hrun)
    as [->|(S & port & Hon & Hport & Hstep & [-> | ->])].
  - split; [cbn; lia|]. intros v Hin. destruct Hin.
  - split; [cbn; lia|]. intros v [<-|Hin]; [|destruct Hin].
    split; [exact Hon|]. split; [rewrite Hport; eexists; reflexivity|].
    left. exact Hstep.
  - split; [cbn; lia|]. intros v [<-|Hin]; [|destruct Hin].
    split; [exact Hon|]. split; [rewrite Hport; eexists; reflexivity|].
    right. exists S. split; [exact Hstep|reflexivity].
Qed.

End Returned.

Lemma Qltb_ext (x y x' y' : Q) :
  ((x < y)%Q <-> (x' < y')%Q) -> Qltb x y = Qltb x' y'.
Proof.
  intros H. destruct (Qltb x y) eqn:E, (Qltb x' y') eqn:E'; try reflexivity.
  - apply Qltb_lt in E. apply H in E. apply Qltb_lt in E. congruence.
  - apply Qltb_lt in E'. apply H in E'. apply Qltb_lt in E'. congruence.
Qed.

(** X21.  Lines 292-303.  The steering is symmetric about the centre of
    the frame: for the box mirrored in the vertical axis of the frame,
    what is handed to the serial port is the opposite of what is handed
    for the box itself, and nothing when nothing is. *)
Theorem steering_is_mirrored {gray : Type} (self : GazeDetection gray)
    (frame_w fx fy fw fh : Z) :
  Forall2 Qeq
    (steering self frame_w (frame_w - fx - fw, fy, fw, fh))
    (map Qopp (steering self frame_w (fx, fy, fw, fh))).
Proof.
  unfold steering, serial_write.
  destruct (print_on_serial self); [|constructor].
  set (c := (inject_Z frame_w / 2)%Q).
  set (cx := (inject_Z fx + inject_Z fw / 2)%Q).
  set (cx' := (inject_Z (frame_w - fx - fw) + inject_Z fw / 2)%Q).
  assert (Hhalf : forall x : Q, (x / 2 == x * (1 # 2))%Q) by (intros x; field).
  assert (Hmirror : (cx' == 2 * c - cx)%Q).
  { subst cx cx' c. rewrite !Hhalf. unfold Z.sub.
    rewrite !inject_Z_plus, !inject_Z_opp. lra. }
  assert (E1 : Qltb cx' (c - 200) = Qltb (c + 200) cx)
    by (apply Qltb_ext; rewrite Hmirror; split; intros; lra).
  assert (E2 : Qltb (c + 200) cx' = Qltb cx (c - 200))
    by (apply Qltb_ext; rewrite Hmirror; split; intros; lra).
  rewrite E1, E2.
  destruct (Qltb cx (c - 200)) eqn:Hl, (Qltb (c + 200) cx) eqn:Hr.
  - apply Qltb_lt in Hl, Hr. exfalso. lra.
  - destruct (serial_port self), (serial_writing_step self) as [S|];
      cbn; repeat constructor. symmetry. apply Qopp_involutive.
  - destruct (serial_port self), (serial_writing_step self) as [S|];
      cbn; repeat constructor.
  - constructor.
Qed.

(** ** The diagnostic record and the running maximum *)

Section Record.

Context {bgr gray : Type}.
Variable cvtColor : ndarray bgr -> ndarray gray.
Variable draw : GazeDetection gray -> locals bgr -> Face -> Z -> Z -> bgr.
Variable self : GazeDetection gray.

(** After an iteration the record holds the keys it held before and the
    keys an iteration writes. *)
Lemma detect_face_info_dom (framebg : ndarray gray) (st st' : locals bgr)
    (i : nat) (face : Face) :
  detect_face draw self framebg st i face = Ok st' ->
  dom (saved_info st') = info_keys self ∪ dom (saved_info st).
Proof.
  intros Hrun.
  destruct (pnp_solver self (shape (frame st)) (image_points face))
    as [[[axes p] y] r] eqn:Hpose.
  destruct (detect_face_Ok draw self framebg st st' i face axes p y r Hpose Hrun)
    as (_ & _ & _ & _ & _ & _ & Hpup).
  unfold info_keys.
  destruct (pupil_detection self) as [detect_pupil|].
  - destruct (pupils self detect_pupil framebg face) as [[lx ly] [rx ry]].
    destruct Hpup as (r_l & r_r & _ & _ & _ & _ & _ & ->).
    rewrite !dom_insert_L. apply set_eq. intros k. set_unfold. tauto.
  - destruct Hpup as (_ & _ & _ & ->).
    rewrite !dom_insert_L. apply set_eq. intros k. set_unfold. tauto.
Qed.

Lemma detect_loop_info_dom (framebg : ndarray gray) (faces : list Face)
    (st st' : locals bgr) (i : nat) :
  detect_loop draw self framebg st i faces = Ok st' ->
  dom (saved_info st') =
    match faces with
    | [] => dom (saved_info st)
    | _ :: _ => info_keys self ∪ dom (saved_info st)
    end.
Proof.
  revert st i. induction faces as [|face faces IH]; intros st i; cbn.
  - intros H. injection H as <-. reflexivity.
  - destruct (detect_face draw self framebg st i face) as [st1|e] eqn:E; cbn;
      [|discriminate].
    intros Hrest. rewrite (IH _ _ Hrest).
    rewrite (detect_face_info_dom _ _ _ _ _ E).
    destruct faces; [reflexivity|].
    apply set_eq. intros k. set_unfold. tauto.
Qed.

(** X12.  The record that [detect] returns under [return_info] is empty when
    no face was reported; otherwise its keys are "pitch", "yaw" and
    "roll", with "l_eye" and "r_eye" exactly when a pupil locator is
    configured: without one, looking up an eye finds nothing. *)
Theorem diagnostic_record_keys (frame0 : ndarray bgr)
    (res : detect_return bgr) :
  detect cvtColor draw self frame0 true = Ok res ->
  exists info : gmap string info_value,
    ret_info res = Some info /\
    (landmark_tracking self (cvtColor frame0) = [] -> info = ∅) /\
    (landmark_tracking self (cvtColor frame0) <> [] ->
       dom info = info_keys self /\
       is_Some (info !! "pitch") /\
       is_Some (info !! "yaw") /\
       is_Some (info !! "roll") /\
       (is_Some (info !! "l_eye") <-> is_Some (pupil_detection self)) /\
       (is_Some (info !! "r_eye") <-> is_Some (pupil_detection self))).
Proof.
  intros Hrun.
  destruct (detect_Ok_inv cvtColor draw self frame0 true res Hrun)
    as (st & Hloop & Hinfo & _).
  exists (saved_info st). split; [exact Hinfo|].
  pose proof (detect_loop_info_dom _ _ _ _ _ Hloop) as Hdom.
  cbn [init_locals saved_info] in Hdom. split.
  - intros Hnil. rewrite Hnil in Hdom. rewrite dom_empty_L in Hdom.
    apply dom_empty_inv_L in Hdom. exact Hdom.
  - intros Hne.
    destruct (landmark_tracking self (cvtColor frame0)) as [|f0 rest];
      [congruence|].
    rewrite dom_empty_L, union_empty_r_L in Hdom.
    split; [exact Hdom|].
    rewrite <- !elem_of_dom, Hdom. unfold info_keys.
    destruct (pupil_detection self) as [detect_pupil|].
    + repeat split; intros; try (eexists; reflexivity); set_unfold; tauto.
    + repeat split; intros H; set_unfold;
        try tauto; try (destruct H as [? H]; discriminate);
        try (exfalso; intuition discriminate).
Qed.

(** X13.  The loop leaves in [biggest_face_area] the greatest of 0 and the box
    areas; when no box has a positive area it leaves index 0, so that
    the first face decides the crop and the steering. *)
Theorem biggest_face_area_is_the_maximum (framebg : ndarray gray)
    (frame0 : ndarray bgr) (faces : list Face) (st : locals bgr) :
  detect_loop draw self framebg (init_locals frame0) 0 faces = Ok st ->
  biggest_face_area st = fold_left Z.max (map box_area faces) 0 /\
  (Forall (fun f => box_area f <= 0) faces ->
   biggest_face_index st = 0%nat /\ biggest_face_area st = 0).
Proof.
  intros Hloop.
  destruct (detect_loop_Ok draw self framebg faces _ st 0%nat Hloop)
    as (_ & Hbig & _).
  cbn [init_locals biggest_face_index biggest_face_area] in Hbig.
  split.
  - assert (Hfold : forall l i idx a,
               snd (biggest_face l i idx a) = fold_left Z.max (map box_area l) a).
    { induction l as [|f l IH]; intros i idx a; cbn; [reflexivity|].
      destruct (a <? box_area f) eqn:E.
      - apply Z.ltb_lt in E. rewrite IH. f_equal. lia.
      - apply Z.ltb_ge in E. rewrite IH. f_equal. lia. }
    rewrite <- (Hfold faces 0%nat 0%nat 0), <- Hbig. reflexivity.
  - intros Hall.
    destruct (biggest_face_spec faces 0 0 0)
      as [[_ E]|(k & f & Hk & _ & Hlt & _)].
    + rewrite E in Hbig. injection Hbig as -> ->. split; reflexivity.
    + exfalso. rewrite List.Forall_forall in Hall.
      pose proof (Hall f (nth_error_In _ _ Hk)). lia.
Qed.

End Record.

(** ** The constructor and its drivers *)

Lemma events_of_after {bgr} (earlier : list (event bgr)) (r : run bgr) :
  events_of (after earlier r) = earlier ++ events_of r.
Proof. destruct r; reflexivity. Qed.

Lemma after_app {bgr} (ev1 ev2 : list (event bgr)) (r : run bgr) :
  after (ev1 ++ ev2) r = after ev1 (after ev2 r).
Proof. destruct r; cbn; rewrite <- app_assoc; reflexivity. Qed.

Lemma shown_app {bgr} (ev1 ev2 : list (event bgr)) :
  shown (ev1 ++ ev2) = shown ev1 ++ shown ev2.
Proof. apply List.flat_map_app. Qed.

Lemma serial_values_app {bgr} (ev1 ev2 : list (event bgr)) :
  serial_values (ev1 ++ ev2) = serial_values ev1 ++ serial_values ev2.
Proof. apply List.flat_map_app. Qed.

Lemma files_written_app {bgr} (ev1 ev2 : list (event bgr)) :
  files_written (ev1 ++ ev2) = files_written ev1 ++ files_written ev2.
Proof. apply List.flat_map_app. Qed.

Lemma serial_values_writes {bgr} (l : list Q) :
  serial_values (map (@Write bgr) l) = l.
Proof. induction l as [|v l IH]; cbn; [reflexivity|]. f_equal. exact IH. Qed.

Lemma shown_writes {bgr} (l : list Q) : shown (map (@Write bgr) l) = [].
Proof. induction l as [|v l IH]; cbn; [reflexivity|exact IH]. Qed.

Lemma files_written_writes {bgr} (l : list Q) :
  files_written (map (@Write bgr) l) = [].
Proof. induction l as [|v l IH]; cbn; [reflexivity|exact IH]. Qed.

Lemma detected_events {bgr} (r : detect_return bgr) :
  shown (detected r) = [ret_frame r] /\
  serial_values (detected r) = serial_written r /\
  files_written (detected r) = [].
Proof.
  unfold detected.
  rewrite shown_app, serial_values_app, files_written_app.
  rewrite shown_writes, serial_values_writes, files_written_writes.
  cbn. rewrite app_nil_r. repeat split.
Qed.

(** The mask of [waitKey(1) & 0xFF] keeps the key code modulo 256. *)
Lemma quits_mod (key : Z) : quits key <-> key mod 256 = 113.
Proof.
  unfold quits. change 255 with (Z.ones 8).
  rewrite Z.land_ones by lia. reflexivity.
Qed.

Section Camera.

Context {bgr gray : Type}.
Variable cvtColor : ndarray bgr -> ndarray gray.
Variable draw : GazeDetection gray -> locals bgr -> Face -> Z -> Z -> bgr.
Variable self : GazeDetection gray.

(** The frame read is processed: [detect] returns for it, and what it
    returns is the frame shown. *)
Let processed (read : ndarray bgr * Z) (f : ndarray bgr) : Prop :=
  ret_frame <$> detect cvtColor draw self (fst read) false = Ok f.

(** While no 'q' is pressed and [detect] returns, the loop goes on: it
    shows one frame per frame read, in order, and carries on with the
    rest of the recording. *)
Lemma video_loop_goes_on (pre rest : list (ndarray bgr * Z)) :
  Forall (fun read => ~ quits (snd read)) pre ->
  Forall (fun read => is_Ok (detect cvtColor draw self (fst read) false)) pre ->
  exists events : list (event bgr),
    video_loop cvtColor draw self pre = Waits events /\
    video_loop cvtColor draw self (pre ++ rest)
      = after events (video_loop cvtColor draw self rest) /\
    Forall2 processed pre (shown events) /\
    (forall v, In v (serial_values events) ->
       exists read r, In read pre /\
         detect cvtColor draw self (fst read) false = Ok r /\
         In v (serial_written r)).
Proof.
  induction pre as [|[frame key] pre IH]; intros Hq Hok.
  - exists []. cbn. split; [reflexivity|]. split.
    + destruct (video_loop cvtColor draw self rest); reflexivity.
    + split; [constructor|]. intros v Hin. destruct Hin.
  - apply Forall_cons_1 in Hq. destruct Hq as [Hkey Hq].
    apply Forall_cons_1 in Hok. destruct Hok as [Hframe Hok].
    destruct (IH Hq Hok) as (events & Hpre & Happ & Hshown & Hvals).
    cbn [fst snd] in Hkey, Hframe.
    destruct (detect cvtColor draw self frame false) as [r|e] eqn:Hrun;
      [|destruct Hframe].
    assert (Ekey : (Z.land key 255 =? 113) = false)
      by (apply Z.eqb_neq; exact Hkey).
    exists (detected r ++ events). cbn [video_loop app].
    rewrite Hrun, Ekey, Hpre, Happ.
    destruct (detected_events r) as (Hs & Hw & _).
    split; [reflexivity|]. split; [rewrite after_app; reflexivity|].
    split.
    + rewrite shown_app, Hs. constructor; [|exact Hshown].
      unfold processed. cbn [fst]. rewrite Hrun. reflexivity.
    + intros v Hin. rewrite serial_values_app, Hw in Hin.
      apply in_app_or in Hin. destruct Hin as [Hin|Hin].
      * exists (frame, key), r. split; [left; reflexivity|].
        split; [exact Hrun|exact Hin].
      * destruct (Hvals v Hin) as (read & r' & Hread & Hr' & Hv).
        exists read, r'. split; [right; exact Hread|]. split; assumption.
Qed.

(** X14.  Lines 98-109.  The camera loop is left on the first frame after
    which the key code is 'q' modulo 256: [detect] has then run once on
    each frame read up to that one, each returned frame was shown, in
    order, and the frames that follow are not read. *)
Theorem video_loop_runs_until_q (pre post : list (ndarray bgr * Z))
    (frame : ndarray bgr) (key : Z) :
  Forall (fun read => snd read mod 256 <> 113) pre ->
  Forall (fun read => is_Ok (detect cvtColor draw self (fst read) false))
         (pre ++ [(frame, key)]) ->
  key mod 256 = 113 ->
  exists events : list (event bgr),
    video_loop cvtColor draw self (pre ++ (frame, key) :: post) = Returns events /\
    Forall2 (fun read f =>
               ret_frame <$> detect cvtColor draw self (fst read) false = Ok f)
            (pre ++ [(frame, key)]) (shown events).
Proof.
  intros Hq Hok Hkey.
  apply Forall_app in Hok. destruct Hok as [Hok Hframe].
  apply Forall_cons_1 in Hframe. destruct Hframe as [Hframe _]. cbn [fst] in Hframe.
  assert (Hq' : Forall (fun read => ~ quits (snd read)) pre).
  { eapply Forall_impl; [exact Hq|]. intros read H. rewrite quits_mod. exact H. }
  destruct (video_loop_goes_on pre ((frame, key) :: post) Hq' Hok)
    as (events & _ & -> & Hshown & _).
  destruct (detect cvtColor draw self frame false) as [r|e] eqn:Hrun;
    [|destruct Hframe].
  apply quits_mod in Hkey. unfold quits in Hkey.
  cbn [video_loop]. rewrite Hrun, Hkey. cbn.
  eexists. split; [reflexivity|].
  rewrite shown_app. destruct (detected_events r) as (-> & _).
  apply Forall2_app; [exact Hshown|].
  constructor; [|constructor]. cbn [fst]. rewrite Hrun. reflexivity.
Qed.

(** X15.  The camera loop has no handler around [detect]: the first frame on
    which [detect] raises ends the loop with the zero division, after
    the frames read before it were shown; no later frame is read. *)
Theorem video_loop_dies_with_detect (pre post : list (ndarray bgr * Z))
    (frame : ndarray bgr) (key : Z) :
  Forall (fun read => snd read mod 256 <> 113) pre ->
  Forall (fun read => is_Ok (detect cvtColor draw self (fst read) false)) pre ->
  ~ is_Ok (detect cvtColor draw self frame false) ->
  exists events : list (event bgr),
    video_loop cvtColor draw self (pre ++ (frame, key) :: post)
      = Raises ZeroDivisionError events /\
    Forall2 (fun read f =>
               ret_frame <$> detect cvtColor draw self (fst read) false = Ok f)
            pre (shown events).
Proof.
  intros Hq Hok Hbad.
  assert (Hq' : Forall (fun read => ~ quits (snd read)) pre).
  { eapply Forall_impl; [exact Hq|]. intros read H. rewrite quits_mod. exact H. }
  destruct (video_loop_goes_on pre ((frame, key) :: post) Hq' Hok)
    as (events & _ & -> & Hshown & _).
  destruct (detect cvtColor draw self frame false) as [r|e] eqn:Hrun;
    [exfalso; apply Hbad; exact I|].
  pose proof (detect_raises _ _ _ _ _ _ Hrun) as ->.
  cbn [video_loop]. rewrite Hrun. cbn. rewrite app_nil_r.
  eexists. split; [reflexivity|exact Hshown].
Qed.

(** Every value a run of the camera loop hands to the serial port was
    handed by [detect] on one of the frames. *)
Lemma video_loop_values (recording : list (ndarray bgr * Z)) (v : Q) :
  In v (serial_values (events_of (video_loop cvtColor draw self recording))) ->
  exists frame r,
    detect cvtColor draw self frame false = Ok r /\ In v (serial_written r).
Proof.
  induction recording as [|[frame key] rest IH];
    [cbn; intros Hin; destruct Hin|].
  cbn [video_loop].
  destruct (detect cvtColor draw self frame false) as [r|e] eqn:Hrun;
    [|cbn; intros Hin; destruct Hin].
  destruct (detected_events r) as (_ & Hw & _).
  destruct (Z.land key 255 =? 113).
  - cbn [events_of]. rewrite Hw. intros Hin. exists frame, r. split; assumption.
  - rewrite events_of_after, serial_values_app, Hw. intros Hin.
    apply in_app_or in Hin. destruct Hin as [Hin|Hin].
    + exists frame, r. split; assumption.
    + exact (IH Hin).
Qed.

(** Without a pupil locator the camera loop never raises. *)
Lemma video_loop_no_pupil (recording : list (ndarray bgr * Z)) :
  pupil_detection self = None ->
  forall e events, video_loop cvtColor draw self recording <> Raises e events.
Proof.
  intros Hnone. induction recording as [|[frame key] rest IH]; cbn;
    [discriminate|].
  pose proof (detect_returns_without_pupil cvtColor draw self frame false Hnone)
    as Hok.
  destruct (detect cvtColor draw self frame false) as [r|e'];
    [|destruct Hok].
  destruct (Z.land key 255 =? 113); [discriminate|].
  intros e events.
  destruct (video_loop cvtColor draw self rest) as [ev|e' ev|ev] eqn:Hrest;
    cbn; try discriminate.
  exfalso. exact (IH e' ev eq_refl).
Qed.

End Camera.

(** *** The path of the saved image *)

Lemma string_of_list_ascii_app (l1 l2 : list ascii) :
  String.string_of_list_ascii (l1 ++ l2)
  = (String.string_of_list_ascii l1 ++ String.string_of_list_ascii l2)%string.
Proof.
  induction l1 as [|a l1 IH]; [reflexivity|].
  cbn [app String.string_of_list_ascii]. rewrite IH. reflexivity.
Qed.

Lemma string_length_app (s1 s2 : string) :
  String.length (s1 ++ s2) = (String.length s1 + String.length s2)%nat.
Proof.
  induction s1 as [|a s1 IH]; [reflexivity|].
  change (S (String.length (s1 ++ s2))
          = S (String.length s1 + String.length s2)).
  rewrite IH. reflexivity.
Qed.

Lemma string_app_nil_r (s : string) : (s ++ "")%string = s.
Proof.
  induction s as [|a s IH]; [reflexivity|].
  change (String a (s ++ "") = String a s). rewrite IH. reflexivity.
Qed.

(** The two parts that [splitext] returns make up the path. *)
Lemma splitext_parts (path : string) :
  (fst (splitext path) ++ snd (splitext path))%string = path.
Proof.
  unfold splitext.
  destruct (_ && _); cbn [fst snd].
  - rewrite <- string_of_list_ascii_app, take_drop.
    apply String.string_of_list_ascii_of_string.
  - apply string_app_nil_r.
Qed.

(** [rfind] answers -1 or the index of an occurrence. *)
Lemma rfind_from_hit (c : ascii) (p : list ascii) (i found : Z) :
  rfind_from c p i found = found \/
  exists k : nat,
    rfind_from c p i found = i + Z.of_nat k /\ nth_error p k = Some c.
Proof.
  revert i found. induction p as [|a p IH]; intros i found; cbn.
  - left. reflexivity.
  - destruct (IH (i + 1) (if Ascii.eqb a c then i else found)) as [->|(k & -> & Hk)].
    + destruct (Ascii.eqb a c) eqn:E; [|left; reflexivity].
      right. exists 0%nat. apply Ascii.eqb_eq in E. subst a.
      split; [lia|reflexivity].
    + right. exists (S k). split; [lia|exact Hk].
Qed.

Lemma edited_path_length (image_path : string) :
  String.length (edited_path image_path) = (String.length image_path + 7)%nat.
Proof.
  unfold edited_path. rewrite !string_length_app.
  rewrite <- (splitext_parts image_path) at 3.
  rewrite string_length_app. cbn. lia.
Qed.

Lemma edited_path_length_differs (image_path : string) :
  edited_path image_path <> image_path.
Proof.
  intros E. pose proof (edited_path_length image_path) as Hlen.
  rewrite E in Hlen. lia.
Qed.

(** X16.  Lines 119-120.  The path [save_image] writes to is the image path
    with "_edited" inserted before the extension that [os.path.splitext]
    finds: it is 7 characters longer, hence never the path of the image
    read, and the extension kept is empty or begins with a dot. *)
Theorem edited_path_is_another_path (image_path : string) :
  String.length (edited_path image_path) = (String.length image_path + 7)%nat /\
  edited_path image_path <> image_path /\
  (snd (splitext image_path) = EmptyString \/
   exists rest : string, snd (splitext image_path) = String "."%char rest) /\
  (snd (splitext image_path) = EmptyString ->
   edited_path image_path = (image_path ++ "_edited")%string).
Proof.
  split; [apply edited_path_length|].
  split; [apply edited_path_length_differs|]. split.
  - unfold splitext. set (p := String.list_ascii_of_string image_path).
    destruct (rfind "/" p <? rfind "." p) eqn:Hlt; cbn [andb];
      [|left; reflexivity].
    destruct (some_non_dot p (rfind "/" p + 1) (rfind "." p));
      [|left; reflexivity].
    right. cbn [snd]. apply Z.ltb_lt in Hlt.
    unfold rfind in *.
    destruct (rfind_from_hit "." p 0 (-1)) as [E|(k & E & Hk)].
    + exfalso. rewrite E in Hlt.
      destruct (rfind_from_hit "/" p 0 (-1)) as [E'|(k' & E' & _)];
        rewrite E' in Hlt; lia.
    + rewrite E. replace (Z.to_nat (0 + Z.of_nat k)) with k by lia.
      apply nth_error_split in Hk. destruct Hk as (l1 & l2 & Hp & Hl).
      rewrite Hp. rewrite <- Hl, drop_app_length. cbn. eexists. reflexivity.
  - intros Hext. unfold edited_path. rewrite Hext.
    rewrite <- (splitext_parts image_path) at 2. rewrite Hext.
    rewrite !string_app_nil_r. reflexivity.
Qed.

Section Constructor.

Context {bgr gray : Type}.
Variable cvtColor : ndarray bgr -> ndarray gray.
Variable draw : GazeDetection gray -> locals bgr -> Face -> Z -> Z -> bgr.
Variable imread : string -> ndarray bgr.
Variable components : Components gray.

(** X17.  Lines 111-121.  For an image path, when [detect] returns: the frame
    it returns is shown once and, under [save_image], written once, to
    the edited path and never over the image read; without [save_image]
    no file is written.  When [detect] raises, nothing is shown or
    written. *)
Theorem image_once_shows_then_saves (self : GazeDetection gray)
    (path : string) (save_image : bool) :
  match detect cvtColor draw self (imread path) false with
  | Ok r =>
      exists events : list (event bgr),
        image_once cvtColor draw imread self (Some path) save_image
          = Returns events /\
        shown events = [ret_frame r] /\
        serial_values events = serial_written r /\
        files_written events
          = (if save_image then [(edited_path path, ret_frame r)] else []) /\
        (forall saved f, In (saved, f) (files_written events) -> saved <> path)
  | Raise e =>
      image_once cvtColor draw imread self (Some path) save_image = Raises e []
  end.
Proof.
  unfold image_once.
  destruct (detect cvtColor draw self (imread path) false) as [r|e];
    [|reflexivity].
  eexists. split; [reflexivity|].
  rewrite shown_app, serial_values_app, files_written_app.
  destruct (detected_events r) as (-> & -> & ->).
  destruct save_image; cbn; rewrite ?app_nil_r; repeat split.
  - intros saved f [H|H]; [|destruct H]. injection H as <- _.
    apply edited_path_length_differs.
  - intros saved f H. destruct H.
Qed.

End Constructor.

Section Init.

Context {bgr gray : Type}.
Variable cvtColor : ndarray bgr -> ndarray gray.
Variable draw : GazeDetection gray -> locals bgr -> Face -> Z -> Z -> bgr.
Variable imread : string -> ndarray bgr.
Variable components : Components gray.

(** The attributes that [__init__] sets from its arguments. *)
Lemma attributes_inv (a : kw.args) (self : GazeDetection gray) :
  attributes components a = Some self ->
  print_on_serial self = kw.print_on_serial a /\
  serial_port self
    = (if kw.print_on_serial a
       then Serial components (kw.serial_port a) 9600 else None) /\
  serial_writing_step self
    = match serial_port self with
      | Some _ => Some (kw.serial_writing_step a)
      | None => None
      end /\
  pupil_detection self
    = (if String.eqb (kw.pupil_detection_mode a) GRAD_MEANS
       then Some (PupilDetectionMeansGradient components)
       else if String.eqb (kw.pupil_detection_mode a) FILTERING
       then Some (PupilDetectionFiltering components (kw.visual_verbose a))
       else None).
Proof.
  unfold attributes.
  destruct (FaceLandmarkTracking components _) as [face_analysis|];
    [|discriminate].
  intros H. injection H as <-. cbn. repeat split.
Qed.

(** Every value a driver hands to the serial port was handed by
    [detect] on some frame. *)
Lemma driver_values (a : kw.args) (self : GazeDetection gray)
    (recording : list (ndarray bgr * Z)) (driver : run bgr) (v : Q) :
  __init__ cvtColor draw imread components a recording
    = Constructed self driver ->
  In v (serial_values (events_of driver)) ->
  exists frame r,
    detect cvtColor draw self frame false = Ok r /\ In v (serial_written r).
Proof.
  unfold __init__.
  destruct (attributes components a) as [self'|]; [|discriminate].
  intros H. injection H as -> <-.
  destruct (kw.video a).
  - apply video_loop_values.
  - unfold image_once. destruct (kw.image_path a) as [path|];
      [|cbn; intros Hin; destruct Hin].
    destruct (detect cvtColor draw self (imread path) false) as [r|e] eqn:Hrun;
      [|cbn; intros Hin; destruct Hin].
    cbn [events_of]. rewrite serial_values_app.
    destruct (detected_events r) as (_ & -> & _).
    intros Hin. apply in_app_or in Hin. destruct Hin as [Hin|Hin].
    + exists (imread path), r. split; assumption.
    + destruct (kw.save_image a); cbn in Hin; destruct Hin.
Qed.


(** X19.  Lines 89-94 and 296-303.  A serial port that cannot be opened is
    passed over in silence: the object is built with [print_on_serial]
    as it was given, and no driver ever writes on the port.  In general
    every value written is the step or its opposite, and is written only
    when [print_on_serial] was given true and the port opened. *)
Theorem serial_writes_need_an_open_port (a : kw.args)
    (recording : list (ndarray bgr * Z))
    (self : GazeDetection gray) (driver : run bgr) :
  __init__ cvtColor draw imread components a recording
    = Constructed self driver ->
  (forall v : Q, In v (serial_values (events_of driver)) ->
     kw.print_on_serial a = true /\
     is_Some (Serial components (kw.serial_port a) 9600) /\
     (v = kw.serial_writing_step a \/ v = (- kw.serial_writing_step a)%Q)) /\
  (Serial components (kw.serial_port a) 9600 = None ->
     print_on_serial self = kw.print_on_serial a /\
     serial_values (events_of driver) = []).
Proof.
  intros Hinit.
  assert (Hattr : attributes components a = Some self).
  { revert Hinit. unfold __init__.
    destruct (attributes components a); [|discriminate].
    intros H. injection H as -> _. reflexivity. }
  destruct (attributes_inv a self Hattr) as (Hon & Hport & Hstep & _).
  assert (Hvals : forall v : Q, In v (serial_values (events_of driver)) ->
            kw.print_on_serial a = true /\
            is_Some (Serial components (kw.serial_port a) 9600) /\
            (v = kw.serial_writing_step a \/ v = (- kw.serial_writing_step a)%Q)).
  { intros v Hin.
    destruct (driver_values a self recording driver v Hinit Hin)
      as (frame & r & Hrun & Hv).
    destruct (detect_written_cases cvtColor draw self frame false r Hrun)
      as [E|(S & port & Hon' & Hport' & Hstep' & Hw)].
    - rewrite E in Hv. destruct Hv.
    - rewrite Hon in Hon'. rewrite Hon' in Hport.
      rewrite Hport' in Hport, Hstep. rewrite Hstep' in Hstep.
      injection Hstep as ->.
      split; [exact Hon'|]. split; [rewrite <- Hport; eexists; reflexivity|].
      destruct Hw as [E|E]; rewrite E in Hv; destruct Hv as [<-|Hv];
        try destruct Hv; [left|right]; reflexivity. }
  split; [exact Hvals|].
  intros Hclosed. split; [exact Hon|].
  destruct (serial_values (events_of driver)) as [|v vs] eqn:E; [reflexivity|].
  destruct (Hvals v (or_introl eq_refl)) as (_ & [port Hopen] & _).
  congruence.
Qed.

(** X20.  Lines 67-73.  A detection mode that is neither "grad_means" nor
    "filtering" builds an object without pupil locator, and then no
    driver raises: neither the camera loop nor the single image can be
    stopped by a face. *)
Theorem other_modes_never_raise (a : kw.args)
    (recording : list (ndarray bgr * Z))
    (self : GazeDetection gray) (driver : run bgr) :
  kw.pupil_detection_mode a <> GRAD_MEANS ->
  kw.pupil_detection_mode a <> FILTERING ->
  __init__ cvtColor draw imread components a recording
    = Constructed self driver ->
  pupil_detection self = None /\
  forall e events, driver <> Raises e events.
Proof.
  intros Hg Hf Hinit.
  assert (Hattr : attributes components a = Some self).
  { revert Hinit. unfold __init__.
    destruct (attributes components a); [|discriminate].
    intros H. injection H as -> _. reflexivity. }
  destruct (attributes_inv a self Hattr) as (_ & _ & _ & Hmode).
  apply String.eqb_neq in Hg, Hf. rewrite Hg, Hf in Hmode.
  split; [exact Hmode|].
  revert Hinit. unfold __init__. rewrite Hattr.
  intros H. injection H as <-.
  destruct (kw.video a).
  - apply video_loop_no_pupil. exact Hmode.
  - intros e events. unfold image_once.
    destruct (kw.image_path a) as [path|]; [|discriminate].
    pose proof (detect_returns_without_pupil cvtColor draw self (imread path)
                  false Hmode) as Hok.
    destruct (detect cvtColor draw self (imread path) false);
      [discriminate|destruct Hok].
Qed.

End Init.

(** ** The further properties on the samples *)

Ltac run_detect Hrun :=
  match goal with
  | |- exists res, ?run = Ok res /\ _ =>
      destruct run as [res|e] eqn:Hrun; [|vm_compute in Hrun; discriminate];
      exists res; split; [reflexivity|]
  end.

Lemma gaze_is_face_facing_without_locator_witness :
  (pupil_detection Sample.no_pupil = None /\
   landmark_tracking Sample.no_pupil (Sample.cvtColor Sample.color_frame)
     = [] ++ [Sample.frontal] /\
   pnp_solver Sample.no_pupil (shape Sample.color_frame)
     (image_points Sample.frontal) = ([], 10%Q, 5%Q, 0%Q)) /\
  exists res,
    detect Sample.cvtColor Sample.draw Sample.no_pupil Sample.color_frame true
      = Ok res /\
    (ret_gaze_facing res = true <->
       (Qabs 10 < inject_Z 20)%Q /\ (Qabs 5 < inject_Z 20)%Q).
Proof.
  split; [repeat split|].
  exact (gaze_is_face_facing_without_locator Sample.cvtColor Sample.draw
           Sample.no_pupil Sample.color_frame true [] Sample.frontal
           [] 10%Q 5%Q 0%Q eq_refl eq_refl eq_refl).
Defined.

Lemma gaze_false_when_yaw_zero_and_not_facing_witness :
  exists st',
    detect_face Sample.draw Sample.with_pupil Sample.gray_frame Sample.entry
      0 Sample2.nodding = Ok st' /\
    (yaw st' = Some 0%Q /\ (0 == 0)%Q /\ face_facing st' = Some false) /\
    gaze_facing st' = Some false.
Proof.
  run_sample Hrun.
  assert (Hy : yaw st' = Some 0%Q) by read_sample Hrun.
  assert (Hf : face_facing st' = Some false) by read_sample Hrun.
  split; [repeat split; assumption || reflexivity|].
  exact (gaze_false_when_yaw_zero_and_not_facing Sample.draw Sample.with_pupil
           Sample.gray_frame Sample.pupil_at_65 Sample.entry st' 0%nat
           Sample2.nodding 0%Q eq_refl Hrun Hy (Qeq_refl 0) Hf).
Defined.

Lemma left_eye_crop_shape_witness :
  shape (fst (eyes Sample.no_pupil Sample.gray_frame Sample.frontal))
    = (160 - 140 + 2 * 2, 300 - 200 + 2 * 0).
Proof.
  assert (Ht : 0 <= 140 - 2 <= 480) by lia.
  assert (Hb : 0 <= 160 + 2 <= 480) by lia.
  assert (Hi : 0 <= 200 - 0 <= 640) by lia.
  assert (Ho : 0 <= 200 + 100 + 0 <= 640) by lia.
  assert (Hrows : 140 - 2 <= 160 + 2) by lia.
  assert (Hcols : 200 - 0 <= 200 + 100 + 0) by lia.
  exact (proj1 (left_eye_crop_shape Sample.no_pupil Sample.gray_frame
                  Sample.frontal 0 2 eq_refl Ht Hb Hi Ho) Hrows Hcols).
Defined.

Lemma pupils_point_at_located_pixels_witness :
  let '(eye_l, eye_r) := eyes Sample.with_pupil Sample.gray_frame Sample.frontal in
  let '((pupil_l_x, pupil_l_y), (pupil_r_x, pupil_r_y)) :=
    pupils Sample.with_pupil Sample.pupil_at_65 Sample.gray_frame Sample.frontal in
  cell Sample.gray_frame pupil_l_y pupil_l_x
    = cell eye_l (snd (Sample.pupil_at_65 eye_l)) (fst (Sample.pupil_at_65 eye_l)) /\
  cell Sample.gray_frame pupil_r_y pupil_r_x
    = cell eye_r (snd (Sample.pupil_at_65 eye_r)) (fst (Sample.pupil_at_65 eye_r)).
Proof.
  assert (Hlt : 0 <= 140 - 2 <= 480) by lia.
  assert (Hli : 0 <= 200 - 0 <= 640) by lia.
  assert (Hrt : 0 <= 140 - 2 <= 480) by lia.
  assert (Hro : 0 <= 400 - 0 <= 640) by lia.
  exact (pupils_point_at_located_pixels Sample.with_pupil Sample.gray_frame
           Sample.pupil_at_65 Sample.frontal 0 2 eq_refl Hlt Hli Hrt Hro).
Defined.

Lemma center_h_ratio_in_range_witness :
  (200 < 300 /\ 200 <= 265 <= 300) /\
  exists r : Q,
    center_h_ratio 265 200 300 = Ok r /\ (- (1 # 2) <= r <= 1 # 2)%Q.
Proof.
  assert (Hab : 200 < 300) by lia.
  assert (Hp : 200 <= 265 <= 300) by lia.
  split; [split; assumption|].
  destruct (center_h_ratio_in_range 265 200 300 Hab Hp) as (r & Hr & Hrange & _).
  exists r. split; assumption.
Defined.

Lemma crop_covers_the_box_witness :
  let '(r0, r1, c0, c1) :=
    crop_bounds ((1 # 2), 0, (15 # 100), 0)%Q (480, 640) (100, 50, 80, 60) in
  (0 <= r0 <= 50 /\ Z.min (50 + 60) 480 <= r1 <= 480) /\
  (0 <= c0 <= 100 /\ Z.min (100 + 80) 640 <= c1 <= 640) /\
  (50 < 480 -> 0 < 60 -> r0 < r1) /\
  (100 < 640 -> 0 < 80 -> c0 < c1).
Proof.
  assert (H1 : (0 <= 1 # 2)%Q) by discriminate.
  assert (H2 : (0 <= 0)%Q) by discriminate.
  assert (H3 : (0 <= 15 # 100)%Q) by discriminate.
  exact (crop_covers_the_box (1 # 2) 0 (15 # 100) 0 480 640 100 50 80 60
           H1 H2 H3 H2
           ltac:(lia) ltac:(lia) ltac:(lia) ltac:(lia) ltac:(lia) ltac:(lia)).
Defined.

Lemma returned_frame_fits_in_the_frame_witness :
  exists res,
    detect Sample.cvtColor Sample.draw Sample.with_pupil Sample.color_frame true
      = Ok res /\
    (0 <= nrows Sample.color_frame /\ 0 <= ncols Sample.color_frame) /\
    0 <= nrows (ret_frame res) <= 480 /\
    0 <= ncols (ret_frame res) <= 640.
Proof.
  run_detect Hrun.
  assert (Hr : 0 <= nrows Sample.color_frame) by (cbn; lia).
  assert (Hc : 0 <= ncols Sample.color_frame) by (cbn; lia).
  split; [split; assumption|].
  destruct (returned_frame_fits_in_the_frame Sample.cvtColor Sample.draw
              Sample.with_pupil Sample.color_frame true res Hrun Hr Hc)
    as (H1 & H2 & _).
  split; assumption.
Defined.

Lemma frame_untouched_without_crop_and_annotation_witness :
  exists res,
    detect Sample.cvtColor Sample.draw Sample2.plain Sample.color_frame true
      = Ok res /\
    (crop_frame Sample2.plain = false /\ annotate_image Sample2.plain = false) /\
    ret_frame res = Sample.color_frame.
Proof.
  run_detect Hrun.
  split; [split; reflexivity|].
  exact (frame_untouched_without_crop_and_annotation Sample.cvtColor Sample.draw
           Sample2.plain Sample.color_frame true res eq_refl eq_refl Hrun).
Defined.

Lemma at_most_one_step_is_written_witness :
  exists res,
    detect Sample.cvtColor Sample.draw Sample.serial_on Sample.color_frame true
      = Ok res /\
    serial_written res = [(- 5)%Q] /\
    (length (serial_written res) <= 1)%nat.
Proof.
  run_detect Hrun.
  split; [vm_compute in Hrun; injection Hrun as <-; reflexivity|].
  exact (proj1 (at_most_one_step_is_written Sample.cvtColor Sample.draw
                  Sample.serial_on Sample.color_frame true res Hrun)).
Defined.

Lemma diagnostic_record_keys_witness :
  exists res,
    detect Sample.cvtColor Sample.draw Sample.no_pupil Sample.color_frame true
      = Ok res /\
    exists info : gmap string info_value,
      ret_info res = Some info /\
      is_Some (info !! "pitch") /\
      (is_Some (info !! "l_eye") <-> is_Some (pupil_detection Sample.no_pupil)).
Proof.
  run_detect Hrun.
  destruct (diagnostic_record_keys Sample.cvtColor Sample.draw Sample.no_pupil
              Sample.color_frame res Hrun) as (info & Hinfo & _ & Hkeys).
  exists info. split; [exact Hinfo|].
  assert (Hne : landmark_tracking Sample.no_pupil
                  (Sample.cvtColor Sample.color_frame) <> []) by discriminate.
  destruct (Hkeys Hne) as (_ & Hp & _ & _ & Hl & _).
  split; assumption.
Defined.

Lemma biggest_face_area_is_the_maximum_witness :
  exists st',
    detect_loop Sample.draw Sample.three_faces_object Sample.gray_frame
      (init_locals Sample.color_frame) 0 Sample.three_faces = Ok st' /\
    biggest_face_area st'
      = fold_left Z.max (map box_area Sample.three_faces) 0 /\
    biggest_face_area st' = 400.
Proof.
  run_sample Hrun.
  pose proof (proj1 (biggest_face_area_is_the_maximum Sample.draw
                       Sample.three_faces_object Sample.gray_frame
                       Sample.color_frame Sample.three_faces st' Hrun)) as Hmax.
  split; [exact Hmax|]. rewrite Hmax. reflexivity.
Defined.

Lemma video_loop_runs_until_q_witness :
  (Forall (fun read => snd read mod 256 <> 113)
     [(Studio.frame_640, -1); (Studio.frame_640, 255)] /\
   113 mod 256 = 113) /\
  exists events : list (event unit),
    video_loop Sample.cvtColor Sample.draw Studio.self_padded Studio.until_q
      = Returns events /\
    length (shown events) = 3%nat.
Proof.
  assert (Hq : Forall (fun read : ndarray unit * Z => snd read mod 256 <> 113)
                 [(Studio.frame_640, -1); (Studio.frame_640, 255)])
    by (repeat constructor; discriminate).
  assert (Hok : Forall (fun read : ndarray unit * Z =>
                          is_Ok (detect Sample.cvtColor Sample.draw
                                   Studio.self_padded (fst read) false))
                  ([(Studio.frame_640, -1); (Studio.frame_640, 255)]
                   ++ [(Studio.frame_640, 113)]))
    by (repeat constructor).
  split; [split; [exact Hq|reflexivity]|].
  destruct (video_loop_runs_until_q Sample.cvtColor Sample.draw
              Studio.self_padded
              [(Studio.frame_640, -1); (Studio.frame_640, 255)]
              [(Studio.frame_641, -1)] Studio.frame_640 113 Hq Hok eq_refl)
    as (events & Hrun & Hshown).
  exists events. split; [exact Hrun|].
  apply Forall2_length in Hshown. rewrite <- Hshown. reflexivity.
Defined.

Lemma video_loop_dies_with_detect_witness :
  ~ is_Ok (detect Sample.cvtColor Sample.draw Studio.self_padded
             Studio.frame_641 false) /\
  exists events : list (event unit),
    video_loop Sample.cvtColor Sample.draw Studio.self_padded
      Studio.with_bad_frame = Raises ZeroDivisionError events /\
    length (shown events) = 1%nat.
Proof.
  assert (Hq : Forall (fun read : ndarray unit * Z => snd read mod 256 <> 113)
                 [(Studio.frame_640, -1)])
    by (repeat constructor; discriminate).
  assert (Hok : Forall (fun read : ndarray unit * Z =>
                          is_Ok (detect Sample.cvtColor Sample.draw
                                   Studio.self_padded (fst read) false))
                  [(Studio.frame_640, -1)])
    by (repeat constructor).
  assert (Hbad : ~ is_Ok (detect Sample.cvtColor Sample.draw Studio.self_padded
                            Studio.frame_641 false))
    by (vm_compute; exact (fun H => H)).
  split; [exact Hbad|].
  destruct (video_loop_dies_with_detect Sample.cvtColor Sample.draw
              Studio.self_padded [(Studio.frame_640, -1)]
              [(Studio.frame_640, 113)] Studio.frame_641 (-1) Hq Hok Hbad)
    as (events & Hrun & Hshown).
  exists events. split; [exact Hrun|].
  apply Forall2_length in Hshown. rewrite <- Hshown. reflexivity.
Defined.

Lemma serial_writes_need_an_open_port_witness :
  exists self driver,
    __init__ Sample.cvtColor Sample.draw Studio.imread
      (Studio.components false) Studio.padded Studio.until_q
      = Constructed self driver /\
    Serial (Studio.components false) (kw.serial_port Studio.padded) 9600 = None /\
    print_on_serial self = true /\
    serial_values (events_of driver) = [].
Proof.
  destruct (__init__ Sample.cvtColor Sample.draw Studio.imread
              (Studio.components false) Studio.padded Studio.until_q)
    as [message|self driver] eqn:Hinit; [vm_compute in Hinit; discriminate|].
  exists self, driver. split; [reflexivity|]. split; [reflexivity|].
  exact (proj2 (serial_writes_need_an_open_port Sample.cvtColor Sample.draw
                  Studio.imread (Studio.components false) Studio.padded
                  Studio.until_q self driver Hinit) eq_refl).
Defined.

Lemma other_modes_never_raise_witness :
  exists self driver,
    __init__ Sample.cvtColor Sample.draw Studio.imread
      (Studio.components true) Studio.no_pupil Studio.with_bad_frame
      = Constructed self driver /\
    (kw.pupil_detection_mode Studio.no_pupil <> GRAD_MEANS /\
     kw.pupil_detection_mode Studio.no_pupil <> FILTERING) /\
    pupil_detection self = None /\
    forall e events, driver <> Raises e events.
Proof.
  destruct (__init__ Sample.cvtColor Sample.draw Studio.imread
              (Studio.components true) Studio.no_pupil Studio.with_bad_frame)
    as [message|self driver] eqn:Hinit; [vm_compute in Hinit; discriminate|].
  exists self, driver. split; [reflexivity|].
  assert (Hg : kw.pupil_detection_mode Studio.no_pupil <> GRAD_MEANS)
    by discriminate.
  assert (Hf : kw.pupil_detection_mode Studio.no_pupil <> FILTERING)
    by discriminate.
  split; [split; assumption|].
  exact (other_modes_never_raise Sample.cvtColor Sample.draw Studio.imread
           (Studio.components true) Studio.no_pupil Studio.with_bad_frame
           self driver Hg Hf Hinit).
Defined.
